(** * ETL: repeat transformers, temporary expressions and their traits

    A shallow embedding of
    - the repeat transformers ([rep_r_transformer], [rep_l_transformer],
      [dyn_rep_r_transformer], [dyn_rep_l_transformer]) and their
      [etl_traits] specialisations,
    - the temporary expressions of [etl/expr/temporary_expr.hpp]
      ([temporary_unary_expr], [temporary_binary_expr]) with their
      allocate / evaluate / result protocol,
    and the properties of them that the specification states. *)

From Stdlib Require Import ZArith Lia String.
From stdpp Require Import base list.

Local Open Scope Z_scope.

(** ** [std::size_t]

    Indices, repeat counts and element counts are [std::size_t]: unsigned,
    64 bits wide on the targets of the library, with wrap-around on
    multiplication.  They are integers of [Z], wrapped where the code
    multiplies. *)
Module SizeT.

Definition bits : Z := 64.
Definition modulus : Z := 2 ^ bits.
Definition SIZE_MAX : Z := modulus - 1.

Definition wrap (z : Z) : Z := z mod modulus.

Definition mul (a b : Z) : Z := wrap (a * b).

End SizeT.

(** ** Expressions that can be read

    What a transformer asks of its sub expression: its element count
    ([size(sub)], i.e. [etl_traits<sub_expr_t>::size(sub)]), [operator[]]
    and [read_flat].  A read is [None] where the C++ has no defined
    result (an index outside the storage, a division by zero). *)
Class etl_expr (V E : Type) := {
  size : E -> Z;
  index : E -> Z -> option V;
  read_flat : E -> Z -> option V
}.
Global Hint Mode etl_expr - ! : typeclass_instances.
Global Arguments size {V E _} _ : assert.
Global Arguments index {V E _} _ _ : assert.
Global Arguments read_flat {V E _} _ _ : assert.

(** Modelled from the spec: the storage containers are not under the
    sources.  A container is its elements in flat order; [read_flat(i)] and
    [operator[]] give element [i], and nothing outside [[0, size)]. *)
Definition container_at {V : Type} (data : list V) (i : Z) : option V :=
  if 0 <=? i then data !! Z.to_nat i else None.

Global Instance container_expr {V : Type} : etl_expr V (list V) := {|
  size data := Z.of_nat (length data);
  index := container_at;
  read_flat := container_at
|}.

(** Modelled from the spec: [mul_all<D...>::value] is declared outside the
    sources; it is the product of the repeat counts, a compile-time
    [std::size_t]. *)
Definition mul_all (D : list Z) : Z := foldr SizeT.mul 1 D.

(** [std::accumulate(reps.begin(), reps.end(), 1UL, a * b)] *)
Definition accumulate_mul (reps : list Z) : Z :=
  fold_left SizeT.mul reps 1.

(** *** [rep_r_transformer<T, D...>] *)
Module rep_r_transformer.
Section Def.
Context {V T : Type} `{!etl_expr V T}.

Record t := make { sub : T; D : list Z }.

Global Instance expr : etl_expr V t := {|
  (* return mul_all<D...>::value * etl_traits<sub_expr_t>::size(v.sub); *)
  size v := SizeT.mul (mul_all (D v)) (size (sub v));
  (* operator[]: return this->sub[i / mul_all<D...>::value]; *)
  index v i :=
    if mul_all (D v) =? 0 then None else index (sub v) (i / mul_all (D v));
  (* return this->sub.read_flat(i / mul_all<D...>::value); *)
  read_flat v i :=
    if mul_all (D v) =? 0 then None else read_flat (sub v) (i / mul_all (D v))
|}.
End Def.
Global Arguments t _ : clear implicits.
End rep_r_transformer.

(** *** [rep_l_transformer<T, D...>] *)
Module rep_l_transformer.
Section Def.
Context {V T : Type} `{!etl_expr V T}.

Record t := make { sub : T; D : list Z }.

Global Instance expr : etl_expr V t := {|
  (* return mul_all<D...>::value * etl_traits<sub_expr_t>::size(v.sub); *)
  size v := SizeT.mul (mul_all (D v)) (size (sub v));
  (* operator[]: return this->sub[i % size(this->sub)]; *)
  index v i :=
    if size (sub v) =? 0 then None else index (sub v) (i mod size (sub v));
  (* return this->sub.read_flat(i % size(this->sub)); *)
  read_flat v i :=
    if size (sub v) =? 0 then None else read_flat (sub v) (i mod size (sub v))
|}.
End Def.
Global Arguments t _ : clear implicits.
End rep_l_transformer.

(** *** [dyn_rep_r_transformer<T, D>] *)
Module dyn_rep_r_transformer.
Section Def.
Context {V T : Type} `{!etl_expr V T}.

Record t := Build { sub : T; reps : list Z; m : Z }.

(* : base_type(expr), reps(reps_a) { m = std::accumulate(...); } *)
Definition make (expr : T) (reps_a : list Z) : t :=
  {| sub := expr; reps := reps_a; m := accumulate_mul reps_a |}.

Global Instance expr : etl_expr V t := {|
  (* return v.m * etl_traits<sub_expr_t>::size(v.sub); *)
  size v := SizeT.mul (m v) (size (sub v));
  (* operator[]: return this->sub[i / m]; *)
  index v i :=
    if m v =? 0 then None else index (sub v) (i / m v);
  (* return this->sub.read_flat(i / m); *)
  read_flat v i :=
    if m v =? 0 then None else read_flat (sub v) (i / m v)
|}.
End Def.
Global Arguments t _ : clear implicits.
End dyn_rep_r_transformer.

(** *** [dyn_rep_l_transformer<T, D>] *)
Module dyn_rep_l_transformer.
Section Def.
Context {V T : Type} `{!etl_expr V T}.

Record t := Build { sub : T; reps : list Z; m : Z }.

(* : base_type(expr), reps(reps_a) { m = std::accumulate(...); } *)
Definition make (expr : T) (reps_a : list Z) : t :=
  {| sub := expr; reps := reps_a; m := accumulate_mul reps_a |}.

Global Instance expr : etl_expr V t := {|
  (* return v.m * etl_traits<sub_expr_t>::size(v.sub); *)
  size v := SizeT.mul (m v) (size (sub v));
  (* operator[]: return this->sub[i % size(this->sub)]; *)
  index v i :=
    if size (sub v) =? 0 then None else index (sub v) (i mod size (sub v));
  (* return this->sub.read_flat(i % size(this->sub)); *)
  read_flat v i :=
    if size (sub v) =? 0 then None else read_flat (sub v) (i mod size (sub v))
|}.
End Def.
Global Arguments t _ : clear implicits.
End dyn_rep_l_transformer.

(** Modelled from the spec: flattening an expression (what assigning it to
    a container does, outside the sources) reads it at every flat index of
    [[0, size)], in order. *)
Definition flatten {V E : Type} `{!etl_expr V E} (e : E) : list (option V) :=
  map (fun k => read_flat e (Z.of_nat k)) (seq 0 (Z.to_nat (size e))).

(** ** Temporary expressions

    The result of a temporary expression lives outside the expression:
    behind a [std::shared_ptr] when the expression is not forced (copies of
    the expression share it), in the destination bound at construction
    when it is forced.  Result storages are the cells of a heap; a
    location is an index into it. *)
Module temporary.

Definition loc := nat.

(** What happened to the storages, in order. *)
Inductive event :=
| EvAllocate (c : loc)        (* a storage made by Op::allocate *)
| EvApply (dst : loc)         (* Op::apply(..., dst) *)
| EvAssign (dst src : loc).   (* dst = src *)

Record world (R : Type) := World { heap : list R; trace : list event }.
Global Arguments World {R} _ _.
Global Arguments heap {R} _.
Global Arguments trace {R} _.

(** How a call ends: it returns, an assertion of it fails, or it does
    what C++ leaves undefined (a null [shared_ptr] dereferenced, a
    dangling storage). *)
Inductive outcome (T : Type) :=
| Ok (x : T)
| AssertFailed (message : string)
| Undefined.
Global Arguments Ok {T} _.
Global Arguments AssertFailed {T} _.
Global Arguments Undefined {T}.

Definition obind {T U : Type} (c : outcome T) (k : T -> outcome U) : outcome U :=
  match c with
  | Ok x => k x
  | AssertFailed message => AssertFailed message
  | Undefined => Undefined
  end.

(** Calls that read and write the storages. *)
Definition M (R T : Type) : Type := world R -> outcome (T * world R).

Definition ret {R T : Type} (x : T) : M R T := fun w => Ok (x, w).

Definition bind {R T U : Type} (c : M R T) (k : T -> M R U) : M R U :=
  fun w => obind (c w) (fun xw => k (fst xw) (snd xw)).

Definition lift {R T : Type} (c : outcome T) : M R T :=
  fun w => obind c (fun x => Ok (x, w)).

Declare Scope etl_scope.
Delimit Scope etl_scope with etl.
Notation "x <- c1 ;; c2" := (bind c1 (fun x => c2))
  (at level 100, c1 at next level, right associativity) : etl_scope.
Notation "c1 ;; c2" := (bind c1 (fun _ => c2))
  (at level 100, right associativity) : etl_scope.

(** Modelled from the spec: [cpp_assert] is a macro declared outside the
    sources.  A contract violation fails fast via the assertion, which
    aborts (the debug build; a release build compiles it out and leaves
    the violation to the caller). *)
Definition cpp_assert (condition : bool) (message : string) : outcome unit :=
  if condition then Ok tt else AssertFailed message.

(** [data_type]: [std::shared_ptr<result_type>] when [is_not_forced],
    else [Forced], the destination the caller bound, held by reference:
    the copies of a forced expression write to the same destination. *)
Inductive data_type :=
| shared_ptr (p : option loc)
| forced (c : loc).

Definition is_not_forced (c : data_type) : bool :=
  match c with
  | shared_ptr _ => true
  | forced _ => false
  end.

(** Modelled from the spec: [dereference_op] and [forward_op] are declared
    outside the sources; [get_result_op::apply(_c)] is [*_c] for the shared
    pointer and [_c] itself for a forced destination. *)
Definition get_result_op (c : data_type) : outcome loc :=
  match c with
  | shared_ptr (Some p) => Ok p
  | shared_ptr None => Undefined
  | forced c => Ok c
  end.

(** Modelled from the spec: [optional_move<B>] is declared outside the
    sources; it moves when [B] holds (the data migrates, the shared
    pointer moved from is left empty) and forwards otherwise.  The pair is
    the value the new expression receives and what is left behind. *)
Definition optional_move (B : bool) (c : data_type) : data_type * data_type :=
  if B then
    match c with
    | shared_ptr p => (shared_ptr p, shared_ptr None)
    | forced r => (forced r, forced r)
    end
  else (c, c).

Section Storage.
Context {R : Type}.

(** [Op::apply(..., dst)]: the operator writes its result into [dst]. *)
Definition apply_into (f : R -> R) (dst : loc) : M R unit :=
  fun w =>
    match heap w !! dst with
    | Some r => Ok (tt, World (<[dst := f r]> (heap w)) (trace w ++ [EvApply dst]))
    | None => Undefined
    end.

(** [dst = src]: the contents of [src] are copied into [dst]. *)
Definition assign (dst src : loc) : M R unit :=
  fun w =>
    match heap w !! src, heap w !! dst with
    | Some r, Some _ =>
        Ok (tt, World (<[dst := r]> (heap w)) (trace w ++ [EvAssign dst src]))
    | _, _ => Undefined
    end.

(** [_c.reset(r)]: a fresh storage holding [r]. *)
Definition reset (r : R) : M R loc :=
  fun w =>
    Ok (length (heap w),
        World (heap w ++ [r]) (trace w ++ [EvAllocate (length (heap w))])).

(** The number of times [Op::apply] ran. *)
Definition is_apply (ev : event) : bool :=
  match ev with
  | EvApply _ => true
  | _ => false
  end.

Definition applies (w : world R) : nat :=
  length (List.filter is_apply (trace w)).

End Storage.

End temporary.

(** [alias(rhs)]: what an operand answers when asked whether it aliases
    with the expression [rhs]. *)
Class etl_alias (X E : Type) := alias : E -> X -> bool.
Global Hint Mode etl_alias - ! : typeclass_instances.

(** The operator of a temporary unary expression: [Op::apply(a, result)]
    writes the result, [Op::allocate(a)] makes the storage of a result. *)
Class unary_op (AExpr R : Type) := {
  Op_apply : AExpr -> R -> R;
  Op_allocate : AExpr -> R
}.

(** The operator of a temporary binary expression. *)
Class binary_op (AExpr BExpr R : Type) := {
  Op_apply2 : AExpr -> BExpr -> R -> R;
  Op_allocate2 : AExpr -> BExpr -> R
}.

(** *** [temporary_unary_expr<T, AExpr, Op, Forced>] *)
Module temporary_unary_expr.
Import temporary.
Local Open Scope etl_scope.

Section Def.
Context {AExpr R : Type} {Op : unary_op AExpr R}.

Record t := Build {
  _a : AExpr;          (* The sub expression reference *)
  _c : data_type;      (* The result reference *)
  allocated : bool;    (* Indicates if the temporary has been allocated *)
  evaluated : bool     (* Indicates if the expression has been evaluated *)
}.

(* explicit temporary_unary_expr(AExpr a) : _a(a) *)
Definition make (a : AExpr) : t :=
  {| _a := a; _c := shared_ptr None; allocated := false; evaluated := false |}.

(* temporary_unary_expr(AExpr a, Forced c) : _a(a), _c(c), allocated(true) *)
Definition make_forced (a : AExpr) (c : loc) : t :=
  {| _a := a; _c := forced c; allocated := true; evaluated := false |}.

(* temporary_unary_expr(const temporary_unary_expr& e) *)
Definition copy (e : t) : t :=
  {| _a := _a e; _c := _c e; allocated := allocated e; evaluated := evaluated e |}.

(* temporary_unary_expr(temporary_unary_expr&& e): the expression
   constructed, and [e] as the constructor leaves it. *)
Definition move (e : t) : t * t :=
  let c := optional_move (is_not_forced (_c e)) (_c e) in
  ({| _a := _a e; _c := fst c; allocated := allocated e; evaluated := evaluated e |},
   {| _a := _a e; _c := snd c; allocated := allocated e; evaluated := false |}).

Definition a (e : t) : AExpr := _a e.

Definition evaluate (e : t) : M R t :=
  if evaluated e then ret e
  else
    lift (cpp_assert (allocated e) "The result has not been allocated") ;;
    c <- lift (get_result_op (_c e)) ;;
    apply_into (Op_apply (_a e)) c ;;
    ret {| _a := _a e; _c := _c e; allocated := allocated e; evaluated := true |}.

Definition result (e : t) : outcome loc :=
  obind (cpp_assert (evaluated e) "The result has not been evaluated") (fun _ =>
  obind (cpp_assert (allocated e) "The result has not been allocated") (fun _ =>
  get_result_op (_c e))).

(** The two overloads of [direct_evaluate]: the first is enabled when
    [Forced] is not [void], the second when it is. *)
Definition direct_evaluate (e : t) (r : loc) : M R t :=
  if is_not_forced (_c e) then
    apply_into (Op_apply (_a e)) r ;;
    ret e
  else
    e' <- evaluate e ;;
    c <- lift (result e') ;;
    assign r c ;;
    ret e'.

(** [direct_evaluate] as the specification words it, to compare with the
    code: a forced expression applies the operator straight into [r]; one
    that is not forced evaluates into its own result and copies it. *)
Definition direct_evaluate_as_stated (e : t) (r : loc) : M R t :=
  if is_not_forced (_c e) then
    e' <- evaluate e ;;
    c <- lift (result e') ;;
    assign r c ;;
    ret e'
  else
    apply_into (Op_apply (_a e)) r ;;
    ret e.

(** The two overloads of [allocate_temporary]. *)
Definition allocate_temporary (e : t) : M R t :=
  match _c e with
  | forced c =>
      ret {| _a := _a e; _c := forced c; allocated := true; evaluated := evaluated e |}
  | shared_ptr (Some p) =>
      ret {| _a := _a e; _c := shared_ptr (Some p); allocated := true;
             evaluated := evaluated e |}
  | shared_ptr None =>
      p <- reset (Op_allocate (_a e)) ;;
      ret {| _a := _a e; _c := shared_ptr (Some p); allocated := true;
             evaluated := evaluated e |}
  end.

Definition gpu_delegate_valid (e : t) : bool := evaluated e && allocated e.

(** The contents of the result, as a reader of [result()] sees them. *)
Definition result_value (e : t) (w : world R) : outcome R :=
  obind (result e) (fun c =>
    match heap w !! c with
    | Some r => Ok r
    | None => Undefined
    end).

(* return _a.alias(rhs); *)
Definition alias_ {X : Type} `{!etl_alias X AExpr} (e : t) (rhs : X) : bool :=
  alias (_a e) rhs.

(** The calls that change an expression or make one from it. *)
Inductive call :=
| Copy
| MoveTo          (* the expression move-constructed from this one *)
| MovedFrom       (* this expression, once moved from *)
| AllocateTemporary
| Evaluate
| DirectEvaluate (r : loc).

Definition run (c : call) (e : t) : M R t :=
  match c with
  | Copy => ret (copy e)
  | MoveTo => ret (fst (move e))
  | MovedFrom => ret (snd (move e))
  | AllocateTemporary => allocate_temporary e
  | Evaluate => evaluate e
  | DirectEvaluate r => direct_evaluate e r
  end.

(** The expressions a program can hold: constructed, or obtained from one
    it holds by a call that returns, whatever the storages are then. *)
Inductive reachable : t -> Prop :=
| reach_make (a : AExpr) : reachable (make a)
| reach_make_forced (a : AExpr) (c : loc) : reachable (make_forced a c)
| reach_run (c : call) (e e' : t) (w w' : world R) :
    reachable e -> run c e w = Ok (e', w') -> reachable e'.

End Def.
Global Arguments t _ : clear implicits.
End temporary_unary_expr.

(** *** [temporary_binary_expr<T, AExpr, BExpr, Op, Forced>] *)
Module temporary_binary_expr.
Import temporary.
Local Open Scope etl_scope.

Section Def.
Context {AExpr BExpr R : Type} {Op : binary_op AExpr BExpr R}.

Record t := Build {
  _a : AExpr;          (* The left hand side expression reference *)
  _b : BExpr;          (* The right hand side expression reference *)
  _c : data_type;      (* The result reference *)
  allocated : bool;    (* Indicates if the temporary has been allocated *)
  evaluated : bool     (* Indicates if the expression has been evaluated *)
}.

(* temporary_binary_expr(AExpr a, BExpr b) : _a(a), _b(b) *)
Definition make (a : AExpr) (b : BExpr) : t :=
  {| _a := a; _b := b; _c := shared_ptr None; allocated := false;
     evaluated := false |}.

(* temporary_binary_expr(AExpr a, BExpr b, Forced c)
     : _a(a), _b(b), _c(c), allocated(true) *)
Definition make_forced (a : AExpr) (b : BExpr) (c : loc) : t :=
  {| _a := a; _b := b; _c := forced c; allocated := true; evaluated := false |}.

(* temporary_binary_expr(const temporary_binary_expr& e) *)
Definition copy (e : t) : t :=
  {| _a := _a e; _b := _b e; _c := _c e; allocated := allocated e;
     evaluated := evaluated e |}.

(* temporary_binary_expr(temporary_binary_expr&& e): the expression
   constructed, and [e] as the constructor leaves it. *)
Definition move (e : t) : t * t :=
  let c := optional_move (is_not_forced (_c e)) (_c e) in
  ({| _a := _a e; _b := _b e; _c := fst c; allocated := allocated e;
      evaluated := evaluated e |},
   {| _a := _a e; _b := _b e; _c := snd c; allocated := allocated e;
      evaluated := false |}).

Definition a (e : t) : AExpr := _a e.

Definition b (e : t) : BExpr := _b e.

Definition evaluate (e : t) : M R t :=
  if evaluated e then ret e
  else
    lift (cpp_assert (allocated e) "The result has not been allocated") ;;
    c <- lift (get_result_op (_c e)) ;;
    apply_into (Op_apply2 (_a e) (_b e)) c ;;
    ret {| _a := _a e; _b := _b e; _c := _c e; allocated := allocated e;
           evaluated := true |}.

Definition result (e : t) : outcome loc :=
  obind (cpp_assert (evaluated e) "The result has not been evaluated") (fun _ =>
  obind (cpp_assert (allocated e) "The result has not been allocated") (fun _ =>
  get_result_op (_c e))).

(** The two overloads of [direct_evaluate]: the first is enabled when
    [Forced] is not [void], the second when it is. *)
Definition direct_evaluate (e : t) (r : loc) : M R t :=
  if is_not_forced (_c e) then
    apply_into (Op_apply2 (_a e) (_b e)) r ;;
    ret e
  else
    e' <- evaluate e ;;
    c <- lift (result e') ;;
    assign r c ;;
    ret e'.

(** The two overloads of [allocate_temporary]. *)
Definition allocate_temporary (e : t) : M R t :=
  match _c e with
  | forced c =>
      ret {| _a := _a e; _b := _b e; _c := forced c; allocated := true;
             evaluated := evaluated e |}
  | shared_ptr (Some p) =>
      ret {| _a := _a e; _b := _b e; _c := shared_ptr (Some p); allocated := true;
             evaluated := evaluated e |}
  | shared_ptr None =>
      p <- reset (Op_allocate2 (_a e) (_b e)) ;;
      ret {| _a := _a e; _b := _b e; _c := shared_ptr (Some p); allocated := true;
             evaluated := evaluated e |}
  end.

Definition gpu_delegate_valid (e : t) : bool := evaluated e && allocated e.

(** The contents of the result, as a reader of [result()] sees them. *)
Definition result_value (e : t) (w : world R) : outcome R :=
  obind (result e) (fun c =>
    match heap w !! c with
    | Some r => Ok r
    | None => Undefined
    end).

(* return _a.alias(rhs) || _b.alias(rhs); *)
Definition alias_ {X : Type} `{!etl_alias X AExpr} `{!etl_alias X BExpr}
    (e : t) (rhs : X) : bool :=
  alias (_a e) rhs || alias (_b e) rhs.

(** The calls that change an expression or make one from it. *)
Inductive call :=
| Copy
| MoveTo          (* the expression move-constructed from this one *)
| MovedFrom       (* this expression, once moved from *)
| AllocateTemporary
| Evaluate
| DirectEvaluate (r : loc).

Definition run (c : call) (e : t) : M R t :=
  match c with
  | Copy => ret (copy e)
  | MoveTo => ret (fst (move e))
  | MovedFrom => ret (snd (move e))
  | AllocateTemporary => allocate_temporary e
  | Evaluate => evaluate e
  | DirectEvaluate r => direct_evaluate e r
  end.

(** The expressions a program can hold: constructed, or obtained from one
    it holds by a call that returns, whatever the storages are then. *)
Inductive reachable : t -> Prop :=
| reach_make (a : AExpr) (b : BExpr) : reachable (make a b)
| reach_make_forced (a : AExpr) (b : BExpr) (c : loc) :
    reachable (make_forced a b c)
| reach_run (c : call) (e e' : t) (w w' : world R) :
    reachable e -> run c e w = Ok (e', w') -> reachable e'.

End Def.
Global Arguments t _ _ : clear implicits.
End temporary_binary_expr.

(** ** The traits of expression types

    [etl_traits<E>] is resolved on the type of an expression.  The types
    are the terms of [expr_t]; a type whose specialisation is outside the
    sources (a container, a generator) is a [leaf] carrying its traits. *)
Module traits.

Inductive order := RowMajor | ColumnMajor.

Inductive vector_mode_t := NONE | SSE3 | AVX.

Record etl_traits := {
  is_etl : bool;
  is_transformer : bool;
  is_view : bool;
  is_magic_view : bool;
  is_fast : bool;
  is_linear : bool;
  is_value : bool;
  is_direct : option bool;   (* declared by the transformers only *)
  is_generator : bool;
  needs_temporary_visitor : bool;
  needs_evaluator_visitor : bool;
  storage_order : order;
  vectorizable : vector_mode_t -> bool
}.

Inductive expr_t :=
| leaf (tr : etl_traits)
| temporary_unary_expr (A : expr_t)
| temporary_binary_expr (A B : expr_t)
| rep_r_transformer (T : expr_t) (D : list Z)
| rep_l_transformer (T : expr_t) (D : list Z)
| dyn_rep_r_transformer (T : expr_t) (D : nat)
| dyn_rep_l_transformer (T : expr_t) (D : nat).

Fixpoint resolve (e : expr_t) : etl_traits :=
  match e with
  | leaf tr => tr
  | temporary_unary_expr A =>
      {| is_etl := true;
         is_transformer := false;
         is_view := false;
         is_magic_view := false;
         is_fast := is_fast (resolve A);
         is_linear := true;
         is_value := false;
         is_direct := None;
         is_generator := false;
         needs_temporary_visitor := true;
         needs_evaluator_visitor := true;
         storage_order := storage_order (resolve A);
         vectorizable := fun _ => true |}
  | temporary_binary_expr A B =>
      {| is_etl := true;
         is_transformer := false;
         is_view := false;
         is_magic_view := false;
         is_fast := is_fast (resolve A) && is_fast (resolve B);
         is_linear := true;
         is_value := false;
         is_direct := None;
         is_generator := false;
         needs_temporary_visitor := true;
         needs_evaluator_visitor := true;
         storage_order :=
           if is_generator (resolve A) then storage_order (resolve B)
           else storage_order (resolve A);
         vectorizable := fun _ => true |}
  | rep_r_transformer T _ | rep_l_transformer T _ =>
      {| is_etl := true;
         is_transformer := true;
         is_view := false;
         is_magic_view := false;
         is_fast := is_fast (resolve T);
         is_linear := false;
         is_value := false;
         is_direct := Some false;
         is_generator := false;
         needs_temporary_visitor := needs_temporary_visitor (resolve T);
         needs_evaluator_visitor := needs_evaluator_visitor (resolve T);
         storage_order := storage_order (resolve T);
         vectorizable := fun _ => false |}
  | dyn_rep_r_transformer T _ | dyn_rep_l_transformer T _ =>
      {| is_etl := true;
         is_transformer := true;
         is_view := false;
         is_magic_view := false;
         is_fast := false;
         is_linear := false;
         is_value := false;
         is_direct := Some false;
         is_generator := false;
         needs_temporary_visitor := needs_temporary_visitor (resolve T);
         needs_evaluator_visitor := needs_evaluator_visitor (resolve T);
         storage_order := storage_order (resolve T);
         vectorizable := fun _ => false |}
  end.

(** The nodes that take part in an expression type: the type and the
    nodes of its operands. *)
Fixpoint nodes (e : expr_t) : list expr_t :=
  e :: match e with
       | leaf _ => []
       | temporary_unary_expr A => nodes A
       | temporary_binary_expr A B => nodes A ++ nodes B
       | rep_r_transformer T _ | rep_l_transformer T _
       | dyn_rep_r_transformer T _ | dyn_rep_l_transformer T _ => nodes T
       end.

(** Node [n] certifies vectorizability for the vector mode [V]. *)
Definition certifies (V : vector_mode_t) (n : expr_t) : bool :=
  vectorizable (resolve n) V.

End traits.

(** ** Operators and operands to run the expressions on

    Elementwise negation and addition of vectors stand in for the
    operators, which are outside the sources; an operand is the vector it
    reads, a storage is known by its location. *)
Module samples.
Import temporary.

Definition negate : unary_op (list Z) (list Z) :=
  {| Op_apply a _ := Z.opp <$> a;
     Op_allocate a := replicate (length a) 0 |}.

Definition add : binary_op (list Z) (list Z) (list Z) :=
  {| Op_apply2 a b _ := zip_with Z.add a b;
     Op_allocate2 a _ := replicate (length a) 0 |}.

(** A container held at a location aliases with that location only. *)
Definition at_loc : etl_alias loc loc := Nat.eqb.

(** A leaf that is a generator and a leaf that is a container. *)
Definition generator (o : traits.order) : traits.etl_traits :=
  {| traits.is_etl := true;
     traits.is_transformer := false;
     traits.is_view := false;
     traits.is_magic_view := false;
     traits.is_fast := false;
     traits.is_linear := true;
     traits.is_value := false;
     traits.is_direct := None;
     traits.is_generator := true;
     traits.needs_temporary_visitor := false;
     traits.needs_evaluator_visitor := false;
     traits.storage_order := o;
     traits.vectorizable := fun _ => true |}.

Definition container (o : traits.order) : traits.etl_traits :=
  {| traits.is_etl := true;
     traits.is_transformer := false;
     traits.is_view := false;
     traits.is_magic_view := false;
     traits.is_fast := false;
     traits.is_linear := true;
     traits.is_value := true;
     traits.is_direct := Some true;
     traits.is_generator := false;
     traits.needs_temporary_visitor := false;
     traits.needs_evaluator_visitor := false;
     traits.storage_order := o;
     traits.vectorizable := fun _ => true |}.

End samples.

(** ** The extents of expressions

    [etl_traits<E>::dimensions()] and [etl_traits<E>::dim(v, d)].  An
    extent is [None] where the C++ has no defined result (a dimension the
    expression does not have). *)
Class etl_shape (E : Type) := {
  dimensions : E -> Z;
  dim : E -> Z -> option Z
}.
Global Hint Mode etl_shape ! : typeclass_instances.

(** Modelled from the spec: the storage containers are not under the
    sources.  A vector has one dimension, its element count. *)
Global Instance container_shape {V : Type} : etl_shape (list V) := {|
  dimensions _ := 1;
  dim data d := if d =? 0 then Some (Z.of_nat (length data)) else None
|}.

(** Modelled from the spec: [dyn_nth_size<D...>(d)] is declared outside
    the sources; it is the [d]-th of the repeat counts.  [reps[d]] of the
    dynamic transformers reads the array the same way. *)
Definition dyn_nth_size (D : list Z) (d : Z) : option Z :=
  if 0 <=? d then D !! Z.to_nat d else None.

Module rep_r_traits.
Section Def.
Context {V T : Type} `{!etl_expr V T} `{!etl_shape T}.

Global Instance shape : etl_shape (rep_r_transformer.t T) := {|
  (* return sizeof...(D) + etl_traits<sub_expr_t>::dimensions(); *)
  dimensions v :=
    Z.of_nat (length (rep_r_transformer.D v)) + dimensions (rep_r_transformer.sub v);
  (* if (d < sub_d) return etl_traits<sub_expr_t>::dim(v.sub, d);
     else return dyn_nth_size<D...>(d - sub_d); *)
  dim v d :=
    if d <? dimensions (rep_r_transformer.sub v)
    then dim (rep_r_transformer.sub v) d
    else dyn_nth_size (rep_r_transformer.D v)
           (d - dimensions (rep_r_transformer.sub v))
|}.
End Def.
End rep_r_traits.

Module rep_l_traits.
Section Def.
Context {V T : Type} `{!etl_expr V T} `{!etl_shape T}.

Global Instance shape : etl_shape (rep_l_transformer.t T) := {|
  (* return sizeof...(D) + etl_traits<sub_expr_t>::dimensions(); *)
  dimensions v :=
    Z.of_nat (length (rep_l_transformer.D v)) + dimensions (rep_l_transformer.sub v);
  (* if (d >= sizeof...(D)) return etl_traits<sub_expr_t>::dim(v.sub, d - sizeof...(D));
     else return dyn_nth_size<D...>(d); *)
  dim v d :=
    if Z.of_nat (length (rep_l_transformer.D v)) <=? d
    then dim (rep_l_transformer.sub v) (d - Z.of_nat (length (rep_l_transformer.D v)))
    else dyn_nth_size (rep_l_transformer.D v) d
|}.
End Def.
End rep_l_traits.

Module dyn_rep_r_traits.
Section Def.
Context {V T : Type} `{!etl_expr V T} `{!etl_shape T}.

Global Instance shape : etl_shape (dyn_rep_r_transformer.t T) := {|
  (* return D + etl_traits<sub_expr_t>::dimensions(); *)
  dimensions v :=
    Z.of_nat (length (dyn_rep_r_transformer.reps v))
    + dimensions (dyn_rep_r_transformer.sub v);
  (* return d < sub_d ? etl_traits<sub_expr_t>::dim(v.sub, d) : v.reps[d - sub_d]; *)
  dim v d :=
    if d <? dimensions (dyn_rep_r_transformer.sub v)
    then dim (dyn_rep_r_transformer.sub v) d
    else dyn_nth_size (dyn_rep_r_transformer.reps v)
           (d - dimensions (dyn_rep_r_transformer.sub v))
|}.
End Def.
End dyn_rep_r_traits.

Module dyn_rep_l_traits.
Section Def.
Context {V T : Type} `{!etl_expr V T} `{!etl_shape T}.

Global Instance shape : etl_shape (dyn_rep_l_transformer.t T) := {|
  (* return D + etl_traits<sub_expr_t>::dimensions(); *)
  dimensions v :=
    Z.of_nat (length (dyn_rep_l_transformer.reps v))
    + dimensions (dyn_rep_l_transformer.sub v);
  (* return d >= D ? etl_traits<sub_expr_t>::dim(v.sub, d - D) : v.reps[d]; *)
  dim v d :=
    if Z.of_nat (length (dyn_rep_l_transformer.reps v)) <=? d
    then dim (dyn_rep_l_transformer.sub v)
           (d - Z.of_nat (length (dyn_rep_l_transformer.reps v)))
    else dyn_nth_size (dyn_rep_l_transformer.reps v) d
|}.
End Def.
End dyn_rep_l_traits.

(** The extents of an expression, dimension by dimension. *)
Definition extents {E : Type} `{!etl_shape E} (e : E) : list (option Z) :=
  map (fun d => dim e (Z.of_nat d)) (seq 0 (Z.to_nat (dimensions e))).

(** ** Reading a temporary expression

    [temporary_expr<D, V>], the base of the two temporary expressions,
    reads the result of the derived expression: [operator[]] is
    [as_derived().result()[i]], [read_flat] is
    [as_derived().result().read_flat(i)]. *)
Module temporary_expr.
Import temporary.

(** [as_derived().result()] *)
Class derived (D : Type) := as_derived_result : D -> outcome loc.
Global Hint Mode derived ! : typeclass_instances.

Global Instance unary_derived {AExpr : Type} : derived (temporary_unary_expr.t AExpr) :=
  temporary_unary_expr.result.

Global Instance binary_derived {AExpr BExpr : Type} :
  derived (temporary_binary_expr.t AExpr BExpr) :=
  temporary_binary_expr.result.

Section Def.
Context {V R D : Type} `{!etl_expr V R} `{!derived D}.

(** A read of the storage [c]; reading outside the storage, or a storage
    that is not there, is undefined. *)
Definition read_storage (read : R -> Z -> option V) (c : loc) (i : Z)
    (w : world R) : outcome V :=
  match heap w !! c with
  | Some r =>
      match read r i with
      | Some x => Ok x
      | None => Undefined
      end
  | None => Undefined
  end.

(* return as_derived().result()[i]; *)
Definition at_ (e : D) (i : Z) (w : world R) : outcome V :=
  obind (as_derived_result e) (fun c => read_storage index c i w).

(* return as_derived().result().read_flat(i); *)
Definition read_flat_ (e : D) (i : Z) (w : world R) : outcome V :=
  obind (as_derived_result e) (fun c => read_storage read_flat c i w).

End Def.
End temporary_expr.

(** ** Stacks of repeat transformers, as types *)
Module stacks.
Import traits.

Inductive repeat :=
| RepR (D : list Z)
| RepL (D : list Z)
| DynRepR (D : nat)
| DynRepL (D : nat).

Definition is_dyn (r : repeat) : bool :=
  match r with
  | RepR _ | RepL _ => false
  | DynRepR _ | DynRepL _ => true
  end.

Definition around (r : repeat) (T : expr_t) : expr_t :=
  match r with
  | RepR D => rep_r_transformer T D
  | RepL D => rep_l_transformer T D
  | DynRepR D => dyn_rep_r_transformer T D
  | DynRepL D => dyn_rep_l_transformer T D
  end.

(** The transformers of [rs] around [T], the first of [rs] outermost. *)
Definition stack (rs : list repeat) (T : expr_t) : expr_t := foldr around T rs.

End stacks.

(** ** The cuDNN helpers ([etl/impl/cudnn/cudnn.hpp])

    The cuDNN library itself is outside the sources.  A descriptor is what
    [cudnnSetTensor4dDescriptor] / [cudnnSetFilter4dDescriptor] is given; a
    release is a call of a [cudnnDestroy...] function.  [cudnn_check] only
    reports a failed status and goes on. *)
Module cudnn.

Inductive cudnnDataType_t := CUDNN_DATA_FLOAT | CUDNN_DATA_DOUBLE.

(** The element type [T = value_t<I>] of the expression. *)
Inductive value_t := float | double | other_type.

(* std::is_same<std::remove_const_t<T>, float>::value
     ? CUDNN_DATA_FLOAT : CUDNN_DATA_DOUBLE *)
Definition data_type_of (T : value_t) : cudnnDataType_t :=
  match T with
  | float => CUDNN_DATA_FLOAT
  | _ => CUDNN_DATA_DOUBLE
  end.

(** The extents are [std::size_t] and the parameters of
    [cudnnSetTensor4dDescriptor] and [cudnnSetFilter4dDescriptor] are
    [int]: each extent is converted on the call, which keeps its low 32
    bits as a two's complement [int]. *)
Definition INT_MAX : Z := 2 ^ 31 - 1.

Definition to_int (z : Z) : Z := (z + 2 ^ 31) mod 2 ^ 32 - 2 ^ 31.

(** The arguments after the descriptor and [CUDNN_TENSOR_NCHW], as the
    library receives them. *)
Record descriptor4d := Descriptor4d {
  data_type : cudnnDataType_t;
  dim_n : Z;
  dim_c : Z;
  dim_h : Z;
  dim_w : Z
}.

(** The overloads of [create_tensor], chosen on
    [decay_traits<I>::dimensions()]; [input_dims] are [etl::dim<k>(input)].
    There is no overload for other numbers of dimensions. *)
Definition create_tensor (T : value_t) (input_dims : list Z) : option descriptor4d :=
  match input_dims with
  | [d0; d1] =>
      Some (Descriptor4d (data_type_of T) 1 1 (to_int d0) (to_int d1))
  | [d0; d1; d2] =>
      Some (Descriptor4d (data_type_of T) 1 (to_int d0) (to_int d1) (to_int d2))
  | [d0; d1; d2; d3] =>
      Some (Descriptor4d (data_type_of T)
              (to_int d0) (to_int d1) (to_int d2) (to_int d3))
  | _ => None
  end.

(** The overloads of [create_filter]: two and four dimensions only. *)
Definition create_filter (T : value_t) (kernel_dims : list Z) : option descriptor4d :=
  match kernel_dims with
  | [d0; d1] =>
      Some (Descriptor4d (data_type_of T) 1 1 (to_int d0) (to_int d1))
  | [d0; d1; d2; d3] =>
      Some (Descriptor4d (data_type_of T)
              (to_int d0) (to_int d1) (to_int d2) (to_int d3))
  | _ => None
  end.

Definition handle := nat.

(** [cudnn_wrapper<T>]: [tensor] is a raw descriptor, [None] for
    [nullptr]. *)
Record cudnn_wrapper := Wrapper { tensor : option handle }.

(* cudnn_wrapper(cudnn_wrapper&& rhs){ tensor = rhs.tensor; rhs.tensor = nullptr; }
   The wrapper constructed, and [rhs] as the constructor leaves it. *)
Definition wrapper_move (rhs : cudnn_wrapper) : cudnn_wrapper * cudnn_wrapper :=
  (Wrapper (tensor rhs), Wrapper None).

(* ~cudnn_wrapper(){ if(tensor){ cudnn_check(cudnnDestroy...Descriptor(tensor)); } }
   [released] are the descriptors destroyed so far. *)
Definition wrapper_destroy (v : cudnn_wrapper) (released : list handle) : list handle :=
  match tensor v with
  | Some h => released ++ [h]
  | None => released
  end.

(** [cudnn_handle]: the raw handle. *)
Record cudnn_handle := Handle { raw : handle }.

(* cudnn_handle(cudnn_handle&& rhs) noexcept = default; *)
Definition handle_move (rhs : cudnn_handle) : cudnn_handle * cudnn_handle :=
  (Handle (raw rhs), rhs).

(* ~cudnn_handle() { cudnn_check(cudnnDestroy(handle)); } *)
Definition handle_destroy (v : cudnn_handle) (released : list handle) : list handle :=
  released ++ [raw v].

End cudnn.

(** ** The configuration flags ([config.hpp])

    The flags are fixed by the macros defined when the library is
    compiled. *)
Module config.

Record defines := {
  ETL_VECTORIZE_FULL : bool;
  ETL_VECTORIZE_EXPR : bool;
  ETL_VECTORIZE_IMPL : bool;
  ETL_NO_TEMPORARY : bool;
  ETL_MKL_MODE : bool;
  ETL_BLAS_MODE : bool;
  ETL_ELEMENT_WISE_MULTIPLICATION : bool;
  ETL_STRICT_DIV : bool;
  ETL_UNROLL_VECT : bool;
  ETL_UNROLL_NON_VECT : bool;
  AVX : bool;      (* __AVX__ *)
  SSE3 : bool      (* __SSE3__ *)
}.

(** The macros after the [#define]s of the header itself. *)
Definition VECTORIZE_EXPR_defined (d : defines) : bool :=
  ETL_VECTORIZE_FULL d || ETL_VECTORIZE_EXPR d.

Definition VECTORIZE_IMPL_defined (d : defines) : bool :=
  ETL_VECTORIZE_FULL d || ETL_VECTORIZE_IMPL d.

Definition BLAS_MODE_defined (d : defines) : bool :=
  ETL_MKL_MODE d || ETL_BLAS_MODE d.

Definition vectorize_expr (d : defines) : bool := VECTORIZE_EXPR_defined d.

(* #ifdef ETL_VECTORIZE_IMPL struct vectorize_impl : std::false_type {};
   #else struct vectorize_impl : std::true_type {}; *)
Definition vectorize_impl (d : defines) : bool := negb (VECTORIZE_IMPL_defined d).

Definition create_temporary (d : defines) : bool := negb (ETL_NO_TEMPORARY d).

Definition is_mkl_enabled (d : defines) : bool := ETL_MKL_MODE d.

Definition is_cblas_enabled (d : defines) : bool := BLAS_MODE_defined d.

Definition is_element_wise_mul_default (d : defines) : bool :=
  ETL_ELEMENT_WISE_MULTIPLICATION d.

Definition is_div_strict (d : defines) : bool := ETL_STRICT_DIV d.

Definition unroll_vectorized_loops (d : defines) : bool := ETL_UNROLL_VECT d.

Definition unroll_normal_loops (d : defines) : bool := ETL_UNROLL_NON_VECT d.

(* #ifdef __AVX__ ... #elif defined(__SSE3__) ... #else ... *)
Definition vector (d : defines) : traits.vector_mode_t :=
  if AVX d then traits.AVX
  else if SSE3 d then traits.SSE3
  else traits.NONE.

End config.

(** * Properties *)

(** ** [std::size_t] arithmetic *)

Lemma wrap_small z : 0 <= z <= SizeT.SIZE_MAX -> SizeT.wrap z = z.
Proof.
  unfold SizeT.wrap, SizeT.SIZE_MAX. intros Hz. apply Z.mod_small. lia.
Qed.

Lemma wrap_range z : 0 <= SizeT.wrap z <= SizeT.SIZE_MAX.
Proof.
  unfold SizeT.wrap, SizeT.SIZE_MAX.
  assert (0 < SizeT.modulus) by (unfold SizeT.modulus, SizeT.bits; lia).
  pose proof (Z.mod_pos_bound z SizeT.modulus). lia.
Qed.

Lemma mul_nonneg a b : 0 <= SizeT.mul a b.
Proof. unfold SizeT.mul. pose proof (wrap_range (a * b)). lia. Qed.

(** A wrapped product that is not zero has no zero factor. *)
Lemma mul_pos_factors a b : 0 < SizeT.mul a b -> a <> 0 /\ b <> 0.
Proof.
  unfold SizeT.mul, SizeT.wrap. intros Hpos.
  split; intros ->; rewrite ?Z.mul_0_l, ?Z.mul_0_r, Z.mod_0_l in Hpos;
    (lia || (unfold SizeT.modulus, SizeT.bits; lia)).
Qed.

Lemma mul_all_nonneg D : 0 <= mul_all D.
Proof. destruct D; simpl; [lia | apply mul_nonneg]. Qed.


(** ** Reading through a repeat transformer *)

Section Reads.
Context {V T : Type} `{!etl_expr V T}.

Lemma rep_l_reads (sub : T) (D : list Z) (i : Z) :
  size sub <> 0 ->
  read_flat (rep_l_transformer.make sub D) i = read_flat sub (i mod size sub)
  /\ index (rep_l_transformer.make sub D) i = index sub (i mod size sub).
Proof.
  intros HN. cbn.
  destruct (Z.eqb_spec (size sub) 0); [contradiction | auto].
Qed.

Lemma rep_r_reads (sub : T) (D : list Z) (i : Z) :
  mul_all D <> 0 ->
  read_flat (rep_r_transformer.make sub D) i = read_flat sub (i / mul_all D)
  /\ index (rep_r_transformer.make sub D) i = index sub (i / mul_all D).
Proof.
  intros HM. cbn -[mul_all].
  destruct (Z.eqb_spec (mul_all D) 0); [contradiction | auto].
Qed.

Lemma dyn_rep_l_reads (sub : T) (reps : list Z) (i : Z) :
  size sub <> 0 ->
  read_flat (dyn_rep_l_transformer.make sub reps) i = read_flat sub (i mod size sub)
  /\ index (dyn_rep_l_transformer.make sub reps) i = index sub (i mod size sub).
Proof.
  intros HN. cbn.
  destruct (Z.eqb_spec (size sub) 0); [contradiction | auto].
Qed.

Lemma dyn_rep_r_reads (sub : T) (reps : list Z) (i : Z) :
  accumulate_mul reps <> 0 ->
  read_flat (dyn_rep_r_transformer.make sub reps) i
    = read_flat sub (i / accumulate_mul reps)
  /\ index (dyn_rep_r_transformer.make sub reps) i
    = index sub (i / accumulate_mul reps).
Proof.
  intros HM. cbn -[accumulate_mul].
  destruct (Z.eqb_spec (accumulate_mul reps) 0); [contradiction | auto].
Qed.

Lemma flatten_length {E : Type} `{!etl_expr V E} (e : E) :
  length (flatten e) = Z.to_nat (size e).
Proof. unfold flatten. by rewrite length_map, length_seq. Qed.

Lemma flatten_lookup {E : Type} `{!etl_expr V E} (e : E) (k : Z) :
  0 <= k < size e ->
  flatten e !! Z.to_nat k = Some (read_flat e k).
Proof.
  intros Hk. unfold flatten. rewrite list_lookup_fmap.
  rewrite lookup_seq_lt by lia. cbn. by rewrite Z2Nat.id by lia.
Qed.

End Reads.

(** The scenario of the specification: a 2x2 matrix [[1,2],[3,4]] repeated
    to the right with factor 2 has 8 elements, [1,1,2,2,3,3,4,4]. *)
Example rep_r_scenario :
  let t := rep_r_transformer.make [1; 2; 3; 4] [2] in
  size t = 8 /\ flatten t = Some <$> [1; 1; 2; 2; 3; 3; 4; 4].
Proof. split; reflexivity. Qed.

Example rep_l_scenario :
  flatten (rep_l_transformer.make [1; 2; 3; 4] [2])
  = Some <$> [1; 2; 3; 4; 1; 2; 3; 4].
Proof. reflexivity. Qed.

Example dyn_rep_scenario :
  flatten (dyn_rep_r_transformer.make [5; 6] [2; 2]) = Some <$> [5; 5; 5; 5; 6; 6; 6; 6]
  /\ flatten (dyn_rep_l_transformer.make [5; 6] [2; 2]) = Some <$> [5; 6; 5; 6; 5; 6; 5; 6].
Proof. split; reflexivity. Qed.




(** C3, as the code has it: for every static or dynamic repeat transformer
    and every flat index [i] of [[0, size)], the right repeat transformers
    read the sub expression at [i / repeatProduct] and the left repeat
    transformers read it at [i mod subSize]. *)
Theorem repeat_index_by_side {V T : Type} `{!etl_expr V T}
    (sub : T) (D reps : list Z) (i : Z) :
  (0 <= i < size (rep_r_transformer.make sub D) ->
   read_flat (rep_r_transformer.make sub D) i = read_flat sub (i / mul_all D)
   /\ index (rep_r_transformer.make sub D) i = index sub (i / mul_all D))
  /\ (0 <= i < size (dyn_rep_r_transformer.make sub reps) ->
      read_flat (dyn_rep_r_transformer.make sub reps) i
        = read_flat sub (i / accumulate_mul reps)
      /\ index (dyn_rep_r_transformer.make sub reps) i
        = index sub (i / accumulate_mul reps))
  /\ (0 <= i < size (rep_l_transformer.make sub D) ->
      read_flat (rep_l_transformer.make sub D) i = read_flat sub (i mod size sub)
      /\ index (rep_l_transformer.make sub D) i = index sub (i mod size sub))
  /\ (0 <= i < size (dyn_rep_l_transformer.make sub reps) ->
      read_flat (dyn_rep_l_transformer.make sub reps) i
        = read_flat sub (i mod size sub)
      /\ index (dyn_rep_l_transformer.make sub reps) i
        = index sub (i mod size sub)).
Proof.
  split; [| split; [| split]]; intros Hi.
  all: match type of Hi with _ <= _ < size ?t =>
         assert (0 < size t) as Hpos by lia end.
  all: apply mul_pos_factors in Hpos as [HM HN].
  - by apply rep_r_reads.
  - by apply dyn_rep_r_reads.
  - by apply rep_l_reads.
  - by apply dyn_rep_l_reads.
Qed.

Lemma repeat_index_by_side_witness :
  let sub := [1; 2; 3; 4] in
  (0 <= 5 < size (rep_r_transformer.make sub [2])
   /\ 0 <= 5 < size (dyn_rep_r_transformer.make sub [2])
   /\ 0 <= 5 < size (rep_l_transformer.make sub [2])
   /\ 0 <= 5 < size (dyn_rep_l_transformer.make sub [2]))
  /\ read_flat (rep_r_transformer.make sub [2]) 5 = read_flat sub (5 / mul_all [2])
  /\ read_flat (dyn_rep_r_transformer.make sub [2]) 5
     = read_flat sub (5 / accumulate_mul [2])
  /\ read_flat (rep_l_transformer.make sub [2]) 5 = read_flat sub (5 mod size sub)
  /\ read_flat (dyn_rep_l_transformer.make sub [2]) 5 = read_flat sub (5 mod size sub).
Proof.
  intros sub.
  assert (0 <= 5 < size (rep_r_transformer.make sub [2])) as H1 by (vm_compute; done).
  assert (0 <= 5 < size (dyn_rep_r_transformer.make sub [2])) as H2
    by (vm_compute; done).
  assert (0 <= 5 < size (rep_l_transformer.make sub [2])) as H3 by (vm_compute; done).
  assert (0 <= 5 < size (dyn_rep_l_transformer.make sub [2])) as H4
    by (vm_compute; done).
  destruct (repeat_index_by_side sub [2] [2] 5) as (Hr & Hdr & Hl & Hdl).
  exact (conj (conj H1 (conj H2 (conj H3 H4)))
           (conj (proj1 (Hr H1))
              (conj (proj1 (Hdr H2)) (conj (proj1 (Hl H3)) (proj1 (Hdl H4)))))).
Defined.

(** C3 as stated fails: on the elements [1,2,3,4] repeated twice, at flat
    index 1, the right repeat transformer reads element [1 / 2 = 0], not
    element [1 mod 4 = 1], and the left repeat transformer reads element
    [1 mod 4 = 1], not element [1 / 2 = 0]. *)
Lemma repeat_sides_swapped :
  let sub := [1; 2; 3; 4] in
  let r := rep_r_transformer.make sub [2] in
  let l := rep_l_transformer.make sub [2] in
  (0 <= 1 < size r
   /\ read_flat r 1 = Some 1
   /\ read_flat r 1 <> read_flat sub (1 mod size sub))
  /\ (0 <= 1 < size l
      /\ read_flat l 1 = Some 2
      /\ read_flat l 1 <> read_flat sub (1 / mul_all [2])).
Proof. vm_compute. repeat split; congruence. Qed.

(** ** Aliasing *)

(** C7: a temporary binary expression aliases with [x] exactly when its
    left operand or its right operand does: [alias(x)] is
    [a().alias(x) || b().alias(x)]. *)
Theorem binary_alias_either {AExpr BExpr X : Type}
    `{!etl_alias X AExpr} `{!etl_alias X BExpr}
    (e : temporary_binary_expr.t AExpr BExpr) (x : X) :
  temporary_binary_expr.alias_ e x
  = alias (temporary_binary_expr.a e) x || alias (temporary_binary_expr.b e) x
  /\ (temporary_binary_expr.alias_ e x = true
      <-> alias (temporary_binary_expr.a e) x = true
          \/ alias (temporary_binary_expr.b e) x = true).
Proof.
  unfold temporary_binary_expr.alias_, temporary_binary_expr.a,
    temporary_binary_expr.b.
  split; [reflexivity | apply orb_true_iff].
Qed.

Lemma binary_alias_either_witness :
  let e := @temporary_binary_expr.make temporary.loc temporary.loc 3%nat 5%nat in
  (@temporary_binary_expr.alias_ _ _ _ samples.at_loc samples.at_loc e 5%nat = true
   <-> samples.at_loc 3%nat 5%nat = true \/ samples.at_loc 5%nat 5%nat = true)
  /\ @temporary_binary_expr.alias_ _ _ _ samples.at_loc samples.at_loc e 5%nat = true
  /\ @temporary_binary_expr.alias_ _ _ _ samples.at_loc samples.at_loc e 4%nat = false.
Proof.
  intros e. split; [| split; reflexivity].
  exact (proj2 (@binary_alias_either _ _ _ samples.at_loc samples.at_loc e 5%nat)).
Defined.

(** ** Traits *)

(** C8: when one operand of a temporary binary expression is a generator
    and the other is not, the storage order of the expression is the
    storage order of the operand that is not a generator. *)
Theorem binary_storage_order_of_concrete (A B : traits.expr_t) :
  (traits.is_generator (traits.resolve A) = true ->
   traits.is_generator (traits.resolve B) = false ->
   traits.storage_order (traits.resolve (traits.temporary_binary_expr A B))
   = traits.storage_order (traits.resolve B))
  /\ (traits.is_generator (traits.resolve A) = false ->
      traits.is_generator (traits.resolve B) = true ->
      traits.storage_order (traits.resolve (traits.temporary_binary_expr A B))
      = traits.storage_order (traits.resolve A)).
Proof.
  split; intros HA HB; cbn; by rewrite HA.
Qed.

Lemma binary_storage_order_of_concrete_witness :
  let g := traits.leaf (samples.generator traits.RowMajor) in
  let c := traits.leaf (samples.container traits.ColumnMajor) in
  traits.storage_order (traits.resolve (traits.temporary_binary_expr g c))
  = traits.ColumnMajor
  /\ traits.storage_order (traits.resolve (traits.temporary_binary_expr c g))
     = traits.ColumnMajor.
Proof.
  intros g c.
  destruct (binary_storage_order_of_concrete g c) as [Hgc _].
  destruct (binary_storage_order_of_concrete c g) as [_ Hcg].
  split.
  - exact (Hgc eq_refl eq_refl).
  - exact (Hcg eq_refl eq_refl).
Defined.

(** C9, as the code has it: for every vector mode, a temporary unary or
    binary expression is vectorizable whatever its operands are, and a
    static or dynamic repeat transformer is not vectorizable whatever its
    sub expression is. *)
Theorem vectorizable_by_node_kind
    (V : traits.vector_mode_t) (A B : traits.expr_t) (D : list Z) (n : nat) :
  traits.certifies V (traits.temporary_unary_expr A) = true
  /\ traits.certifies V (traits.temporary_binary_expr A B) = true
  /\ traits.certifies V (traits.rep_r_transformer A D) = false
  /\ traits.certifies V (traits.rep_l_transformer A D) = false
  /\ traits.certifies V (traits.dyn_rep_r_transformer A n) = false
  /\ traits.certifies V (traits.dyn_rep_l_transformer A n) = false.
Proof. repeat split. Qed.

(** C9 as stated fails: a temporary unary expression over a right repeat
    transformer is vectorizable for AVX, although the transformer, a node
    taking part in it, does not certify vectorizability for AVX. *)
Lemma temporary_over_repeat_vectorizable :
  let sub := traits.rep_r_transformer
               (traits.leaf (samples.container traits.RowMajor)) [2] in
  let e := traits.temporary_unary_expr sub in
  traits.certifies traits.AVX e = true
  /\ sub ∈ traits.nodes e
  /\ traits.certifies traits.AVX sub = false
  /\ ~ (forall n, n ∈ traits.nodes e -> traits.certifies traits.AVX n = true).
Proof.
  intros sub e.
  assert (sub ∈ traits.nodes e) as Hin by (cbn; do 2 constructor).
  repeat split; try done.
  intros Hall. specialize (Hall sub Hin). discriminate.
Qed.

(** ** The protocol of temporary expressions *)

Import temporary.

(** *** Calls that return *)

Section Calls.
Context {R : Type}.
Implicit Types (w : world R).

Lemma obind_Ok {T U : Type} (c : outcome T) (k : T -> outcome U) (y : U) :
  obind c k = Ok y <-> exists x, c = Ok x /\ k x = Ok y.
Proof.
  destruct c; cbn; split; try (intros (? & ? & ?)); try discriminate; eauto.
  by simplify_eq.
Qed.

Lemma ret_Ok {T : Type} (x y : T) w w' :
  ret x w = Ok (y, w') <-> x = y /\ w = w'.
Proof. unfold ret. split; [by intros [= -> ->] | by intros [-> ->]]. Qed.

Lemma bind_Ok {T U : Type} (c : M R T) (k : T -> M R U) (y : U) w w' :
  bind c k w = Ok (y, w')
  <-> exists x w0, c w = Ok (x, w0) /\ k x w0 = Ok (y, w').
Proof.
  unfold bind. destruct (c w) as [[x w0]| |]; cbn; split;
    try (intros (? & ? & ? & ?)); try discriminate; eauto.
  by simplify_eq.
Qed.

Lemma lift_Ok {T : Type} (c : outcome T) (x : T) w w' :
  lift c w = Ok (x, w') <-> c = Ok x /\ w = w'.
Proof.
  unfold lift. destruct c; cbn; split; try (intros [? ?]); try discriminate.
  - by intros [= -> ->].
  - by simplify_eq.
Qed.

Lemma cpp_assert_Ok (condition : bool) (message : string) (u : unit) :
  cpp_assert condition message = Ok u <-> condition = true.
Proof. destruct condition, u; cbn; split; try done. Qed.

Lemma apply_into_Ok (f : R -> R) (dst : loc) (u : unit) w w' :
  apply_into f dst w = Ok (u, w')
  <-> exists old, heap w !! dst = Some old
       /\ w' = World (<[dst := f old]> (heap w)) (trace w ++ [EvApply dst]).
Proof.
  unfold apply_into. destruct (heap w !! dst) as [old|], u; split.
  - intros [= <-]. eauto.
  - by intros (? & [= <-] & ->).
  - discriminate.
  - by intros (? & ? & _).
Qed.

Lemma assign_Ok (dst src : loc) (u : unit) w w' :
  assign dst src w = Ok (u, w')
  <-> exists r, heap w !! src = Some r /\ is_Some (heap w !! dst)
       /\ w' = World (<[dst := r]> (heap w)) (trace w ++ [EvAssign dst src]).
Proof.
  unfold assign.
  destruct (heap w !! src) as [r|], (heap w !! dst) as [old|], u; split;
    try discriminate.
  - intros [= <-]. eauto.
  - by intros (? & [= <-] & _ & ->).
  - by intros (? & _ & [? ?] & _).
  - by intros (? & ? & _).
  - by intros (? & ? & _).
Qed.

Lemma reset_Ok (r : R) (p : loc) w w' :
  reset r w = Ok (p, w')
  <-> p = length (heap w)
      /\ w' = World (heap w ++ [r]) (trace w ++ [EvAllocate (length (heap w))]).
Proof. unfold reset. split; [by intros [= <- <-] | by intros [-> ->]]. Qed.

Lemma applies_apply (h h' : list R) (tr : list event) (dst : loc) :
  applies (World h' (tr ++ [EvApply dst])) = S (applies (World h tr)).
Proof.
  unfold applies. cbn [trace]. rewrite List.filter_app, length_app. cbn. lia.
Qed.

End Calls.

(** Takes apart the hypotheses saying that a call returned. *)
Ltac returned :=
  repeat match goal with
         | H : bind _ _ _ = Ok (_, _) |- _ =>
             apply bind_Ok in H as (? & ? & ? & H)
         | H : ret _ _ = Ok (_, _) |- _ => apply ret_Ok in H as [? ?]
         | H : lift _ _ = Ok (_, _) |- _ => apply lift_Ok in H as [H ?]
         | H : obind _ _ = Ok _ |- _ => apply obind_Ok in H as (? & ? & H)
         | H : cpp_assert _ _ = Ok _ |- _ => apply cpp_assert_Ok in H
         | H : apply_into _ _ _ = Ok (_, _) |- _ =>
             apply apply_into_Ok in H as (? & H & ?)
         | H : assign _ _ _ = Ok (_, _) |- _ =>
             apply assign_Ok in H as (? & H & ? & ?)
         | H : reset _ _ = Ok (_, _) |- _ => apply reset_Ok in H as [? ?]
         end.

(** *** Temporary unary expressions *)

Section Unary.
Context {AExpr R : Type} {Op : unary_op AExpr R}.
Implicit Types (e : temporary_unary_expr.t AExpr) (w : world R).

(** What [evaluate] does, case by case. *)
Lemma unary_evaluate_cases e w :
  temporary_unary_expr.evaluate e w =
  if temporary_unary_expr.evaluated e then Ok (e, w)
  else if temporary_unary_expr.allocated e then
    match get_result_op (temporary_unary_expr._c e) with
    | Ok c =>
        match heap w !! c with
        | Some old =>
            Ok (temporary_unary_expr.Build
                  (temporary_unary_expr._a e) (temporary_unary_expr._c e)
                  (temporary_unary_expr.allocated e) true,
                World (<[c := Op_apply (temporary_unary_expr._a e) old]> (heap w))
                      (trace w ++ [EvApply c]))
        | None => Undefined
        end
    | AssertFailed message => AssertFailed message
    | Undefined => Undefined
    end
  else AssertFailed "The result has not been allocated".
Proof.
  unfold temporary_unary_expr.evaluate.
  destruct (temporary_unary_expr.evaluated e); [reflexivity |].
  destruct (temporary_unary_expr.allocated e); [| reflexivity].
  unfold bind, lift, cpp_assert, obind, apply_into, ret. cbn [fst snd].
  destruct (get_result_op _); try reflexivity.
  cbn [fst snd]. by destruct (heap w !! _).
Qed.

Lemma unary_evaluate_returned e e' w w' :
  temporary_unary_expr.evaluate e w = Ok (e', w') ->
  temporary_unary_expr.evaluated e' = true
  /\ temporary_unary_expr.allocated e' = temporary_unary_expr.allocated e
  /\ temporary_unary_expr._c e' = temporary_unary_expr._c e
  /\ temporary_unary_expr._a e' = temporary_unary_expr._a e
  /\ (temporary_unary_expr.evaluated e = false ->
      temporary_unary_expr.allocated e = true).
Proof.
  rewrite unary_evaluate_cases. intros Hev.
  destruct (temporary_unary_expr.evaluated e) eqn:Hevd.
  { by simplify_eq. }
  destruct (temporary_unary_expr.allocated e) eqn:Hal; [| done].
  destruct (get_result_op _); try done.
  destruct (heap w !! _); by simplify_eq.
Qed.

Lemma unary_run_flags c e e' w w' :
  temporary_unary_expr.run c e w = Ok (e', w') ->
  (temporary_unary_expr.evaluated e = true ->
   temporary_unary_expr.allocated e = true) ->
  temporary_unary_expr.evaluated e' = true ->
  temporary_unary_expr.allocated e' = true.
Proof.
  intros Hrun Hinv.
  destruct c; cbn [temporary_unary_expr.run] in Hrun.
  - returned. by subst.
  - returned. by subst.
  - returned. by subst.
  - unfold temporary_unary_expr.allocate_temporary in Hrun.
    destruct (temporary_unary_expr._c e) as [[p|]|c]; returned; by subst.
  - apply unary_evaluate_returned in Hrun as (He & Hal & _ & _ & Hwas).
    rewrite Hal. destruct (temporary_unary_expr.evaluated e); auto.
  - unfold temporary_unary_expr.direct_evaluate in Hrun.
    destruct (is_not_forced _); returned; subst; [done |].
    match goal with
    | H : temporary_unary_expr.evaluate _ _ = _ |- _ =>
        apply unary_evaluate_returned in H as (He & Hal & _ & _ & Hwas)
    end.
    rewrite Hal. destruct (temporary_unary_expr.evaluated e); auto.
Qed.

Lemma unary_reachable_flags e :
  temporary_unary_expr.reachable (R := R) e ->
  temporary_unary_expr.evaluated e = true ->
  temporary_unary_expr.allocated e = true.
Proof.
  induction 1 as [a | a c | c e e' w w' Hreach IH Hrun]; try done.
  eauto using unary_run_flags.
Qed.

(** [direct_evaluate] on an expression that is not forced: the operator is
    applied straight into [r]; the expression, its flags and its own
    result are as they were. *)
Lemma unary_direct_evaluate_not_forced e r w :
  is_not_forced (temporary_unary_expr._c e) = true ->
  temporary_unary_expr.direct_evaluate e r w =
  match heap w !! r with
  | Some old =>
      Ok (e, World (<[r := Op_apply (temporary_unary_expr._a e) old]> (heap w))
                   (trace w ++ [EvApply r]))
  | None => Undefined
  end.
Proof.
  intros Hnf. unfold temporary_unary_expr.direct_evaluate. rewrite Hnf.
  unfold bind, apply_into, ret, obind. by destruct (heap w !! r).
Qed.

(** [direct_evaluate] on a forced expression: [evaluate()] runs on the
    destination [c] bound at construction, then [c] is copied into [r]. *)
Lemma unary_direct_evaluate_forced e c r w :
  temporary_unary_expr._c e = forced c ->
  temporary_unary_expr.allocated e = true ->
  temporary_unary_expr.direct_evaluate e r w =
  (e' <- temporary_unary_expr.evaluate e ;; assign r c ;; ret e')%etl w.
Proof.
  intros Hc Hal. unfold temporary_unary_expr.direct_evaluate. rewrite Hc.
  cbn [is_not_forced]. unfold bind at 1 4.
  destruct (temporary_unary_expr.evaluate e w) as [[e' w0]| |] eqn:Hev;
    [| reflexivity | reflexivity].
  apply unary_evaluate_returned in Hev as (He' & Hal' & Hc' & _ & _).
  cbn [obind fst snd]. unfold temporary_unary_expr.result.
  rewrite He', Hal', Hal, Hc', Hc. reflexivity.
Qed.

Lemma unary_direct_evaluate_forced_trace e c r e' w w' :
  temporary_unary_expr._c e = forced c ->
  temporary_unary_expr.direct_evaluate e r w = Ok (e', w') ->
  temporary_unary_expr.evaluated e' = true
  /\ trace w' = trace w
                ++ (if temporary_unary_expr.evaluated e then [] else [EvApply c])
                ++ [EvAssign r c].
Proof.
  intros Hc Hde. unfold temporary_unary_expr.direct_evaluate in Hde.
  rewrite Hc in Hde. cbn [is_not_forced] in Hde. returned. subst.
  match goal with
  | H : temporary_unary_expr.evaluate _ _ = _ |- _ =>
      pose proof (unary_evaluate_returned _ _ _ _ H) as (He' & Hal' & Hc' & _ & _);
      rewrite unary_evaluate_cases in H; rename H into Hev
  end.
  match goal with
  | H : temporary_unary_expr.result _ = _ |- _ =>
      unfold temporary_unary_expr.result in H; rewrite Hc', Hc in H; returned;
      cbn in H; injection H as <-
  end.
  split; [done |]. cbn [trace].
  destruct (temporary_unary_expr.evaluated e).
  { by simplify_eq. }
  destruct (temporary_unary_expr.allocated e); [| done].
  rewrite Hc in Hev. cbn in Hev.
  destruct (heap w !! c); simplify_eq. cbn. by rewrite <- app_assoc.
Qed.

(** [result()], case by case. *)
Lemma unary_result_cases e :
  (temporary_unary_expr.evaluated e = false ->
   temporary_unary_expr.result e = AssertFailed "The result has not been evaluated")
  /\ (temporary_unary_expr.evaluated e = true ->
      temporary_unary_expr.allocated e = false ->
      temporary_unary_expr.result e
      = AssertFailed "The result has not been allocated")
  /\ (temporary_unary_expr.evaluated e = true ->
      temporary_unary_expr.allocated e = true ->
      temporary_unary_expr.result e = get_result_op (temporary_unary_expr._c e))
  /\ (forall c : loc,
        temporary_unary_expr.result e = Ok c ->
        temporary_unary_expr.evaluated e = true
        /\ temporary_unary_expr.allocated e = true
        /\ get_result_op (temporary_unary_expr._c e) = Ok c).
Proof.
  unfold temporary_unary_expr.result.
  destruct (temporary_unary_expr.evaluated e), (temporary_unary_expr.allocated e);
    cbn; repeat split; intros; done.
Qed.

(** A second [evaluate()] changes nothing, whatever the first one did. *)
Lemma unary_evaluate_twice e w :
  (e' <- temporary_unary_expr.evaluate e ;; temporary_unary_expr.evaluate e')%etl w
  = temporary_unary_expr.evaluate e w.
Proof.
  unfold bind.
  destruct (temporary_unary_expr.evaluate e w) as [[e' w']| |] eqn:Hev;
    [| reflexivity | reflexivity].
  apply unary_evaluate_returned in Hev as (He' & _).
  cbn [obind fst snd]. rewrite unary_evaluate_cases. by rewrite He'.
Qed.

(** With its storage in place, [evaluate()] returns, and applies the
    operator once if the expression was not evaluated, never otherwise. *)
Lemma unary_evaluate_returns e c w :
  temporary_unary_expr.allocated e = true ->
  get_result_op (temporary_unary_expr._c e) = Ok c ->
  is_Some (heap w !! c) ->
  exists e' w',
    temporary_unary_expr.evaluate e w = Ok (e', w')
    /\ temporary_unary_expr.evaluate e' w' = Ok (e', w')
    /\ temporary_unary_expr.evaluated e' = true
    /\ temporary_unary_expr.result e' = Ok c
    /\ applies w'
       = (applies w + if temporary_unary_expr.evaluated e then 0 else 1)%nat.
Proof.
  intros Hal Hc [old Hold].
  pose proof (unary_evaluate_twice e w) as Htwice.
  pose proof (unary_evaluate_cases e w) as Hev.
  rewrite Hal, Hc, Hold in Hev.
  destruct (temporary_unary_expr.evaluated e) eqn:Hevd;
    rewrite Hev in Htwice; unfold bind in Htwice; rewrite Hev in Htwice;
    cbn [obind fst snd] in Htwice;
    eexists _, _; (split; [exact Hev |]); (split; [exact Htwice |]).
  - repeat split; [done | | lia].
    unfold temporary_unary_expr.result. by rewrite Hevd, Hal.
  - repeat split; [| by rewrite (applies_apply (heap w)), Nat.add_1_r].
    unfold temporary_unary_expr.result. by cbn.
Qed.

(** The move constructor. *)
Lemma unary_move_flags e :
  let d := fst (temporary_unary_expr.move e) in
  let e' := snd (temporary_unary_expr.move e) in
  temporary_unary_expr.evaluated e' = false
  /\ temporary_unary_expr.allocated e' = temporary_unary_expr.allocated e
  /\ temporary_unary_expr.evaluated d = temporary_unary_expr.evaluated e
  /\ temporary_unary_expr.allocated d = temporary_unary_expr.allocated e
  /\ temporary_unary_expr.result d = temporary_unary_expr.result e
  /\ forall w, temporary_unary_expr.result_value d w
               = temporary_unary_expr.result_value e w.
Proof.
  assert (temporary_unary_expr.result (fst (temporary_unary_expr.move e))
          = temporary_unary_expr.result e) as Hres
    by (by destruct e as [a [p|c] al ev]).
  cbn zeta. repeat split; try done.
  intros w. unfold temporary_unary_expr.result_value. by rewrite Hres.
Qed.

End Unary.

(** *** Temporary binary expressions *)

Section Binary.
Context {AExpr BExpr R : Type} {Op : binary_op AExpr BExpr R}.
Implicit Types (e : temporary_binary_expr.t AExpr BExpr) (w : world R).

(** What [evaluate] does, case by case. *)
Lemma binary_evaluate_cases e w :
  temporary_binary_expr.evaluate e w =
  if temporary_binary_expr.evaluated e then Ok (e, w)
  else if temporary_binary_expr.allocated e then
    match get_result_op (temporary_binary_expr._c e) with
    | Ok c =>
        match heap w !! c with
        | Some old =>
            Ok (temporary_binary_expr.Build
                  (temporary_binary_expr._a e) (temporary_binary_expr._b e)
                  (temporary_binary_expr._c e)
                  (temporary_binary_expr.allocated e) true,
                World (<[c := Op_apply2 (temporary_binary_expr._a e) (temporary_binary_expr._b e) old]> (heap w))
                      (trace w ++ [EvApply c]))
        | None => Undefined
        end
    | AssertFailed message => AssertFailed message
    | Undefined => Undefined
    end
  else AssertFailed "The result has not been allocated".
Proof.
  unfold temporary_binary_expr.evaluate.
  destruct (temporary_binary_expr.evaluated e); [reflexivity |].
  destruct (temporary_binary_expr.allocated e); [| reflexivity].
  unfold bind, lift, cpp_assert, obind, apply_into, ret. cbn [fst snd].
  destruct (get_result_op _); try reflexivity.
  cbn [fst snd]. by destruct (heap w !! _).
Qed.

Lemma binary_evaluate_returned e e' w w' :
  temporary_binary_expr.evaluate e w = Ok (e', w') ->
  temporary_binary_expr.evaluated e' = true
  /\ temporary_binary_expr.allocated e' = temporary_binary_expr.allocated e
  /\ temporary_binary_expr._c e' = temporary_binary_expr._c e
  /\ temporary_binary_expr._a e' = temporary_binary_expr._a e
  /\ (temporary_binary_expr.evaluated e = false ->
      temporary_binary_expr.allocated e = true).
Proof.
  rewrite binary_evaluate_cases. intros Hev.
  destruct (temporary_binary_expr.evaluated e) eqn:Hevd.
  { by simplify_eq. }
  destruct (temporary_binary_expr.allocated e) eqn:Hal; [| done].
  destruct (get_result_op _); try done.
  destruct (heap w !! _); by simplify_eq.
Qed.

Lemma binary_run_flags c e e' w w' :
  temporary_binary_expr.run c e w = Ok (e', w') ->
  (temporary_binary_expr.evaluated e = true ->
   temporary_binary_expr.allocated e = true) ->
  temporary_binary_expr.evaluated e' = true ->
  temporary_binary_expr.allocated e' = true.
Proof.
  intros Hrun Hinv.
  destruct c; cbn [temporary_binary_expr.run] in Hrun.
  - returned. by subst.
  - returned. by subst.
  - returned. by subst.
  - unfold temporary_binary_expr.allocate_temporary in Hrun.
    destruct (temporary_binary_expr._c e) as [[p|]|c]; returned; by subst.
  - apply binary_evaluate_returned in Hrun as (He & Hal & _ & _ & Hwas).
    rewrite Hal. destruct (temporary_binary_expr.evaluated e); auto.
  - unfold temporary_binary_expr.direct_evaluate in Hrun.
    destruct (is_not_forced _); returned; subst; [done |].
    match goal with
    | H : temporary_binary_expr.evaluate _ _ = _ |- _ =>
        apply binary_evaluate_returned in H as (He & Hal & _ & _ & Hwas)
    end.
    rewrite Hal. destruct (temporary_binary_expr.evaluated e); auto.
Qed.

Lemma binary_reachable_flags e :
  temporary_binary_expr.reachable (R := R) e ->
  temporary_binary_expr.evaluated e = true ->
  temporary_binary_expr.allocated e = true.
Proof.
  induction 1 as [a b | a b c | c e e' w w' Hreach IH Hrun]; try done.
  eauto using binary_run_flags.
Qed.

(** [direct_evaluate] on an expression that is not forced: the operator is
    applied straight into [r]; the expression, its flags and its own
    result are as they were. *)
Lemma binary_direct_evaluate_not_forced e r w :
  is_not_forced (temporary_binary_expr._c e) = true ->
  temporary_binary_expr.direct_evaluate e r w =
  match heap w !! r with
  | Some old =>
      Ok (e, World (<[r := Op_apply2 (temporary_binary_expr._a e) (temporary_binary_expr._b e) old]> (heap w))
                   (trace w ++ [EvApply r]))
  | None => Undefined
  end.
Proof.
  intros Hnf. unfold temporary_binary_expr.direct_evaluate. rewrite Hnf.
  unfold bind, apply_into, ret, obind. by destruct (heap w !! r).
Qed.

(** [direct_evaluate] on a forced expression: [evaluate()] runs on the
    destination [c] bound at construction, then [c] is copied into [r]. *)
Lemma binary_direct_evaluate_forced e c r w :
  temporary_binary_expr._c e = forced c ->
  temporary_binary_expr.allocated e = true ->
  temporary_binary_expr.direct_evaluate e r w =
  (e' <- temporary_binary_expr.evaluate e ;; assign r c ;; ret e')%etl w.
Proof.
  intros Hc Hal. unfold temporary_binary_expr.direct_evaluate. rewrite Hc.
  cbn [is_not_forced]. unfold bind at 1 4.
  destruct (temporary_binary_expr.evaluate e w) as [[e' w0]| |] eqn:Hev;
    [| reflexivity | reflexivity].
  apply binary_evaluate_returned in Hev as (He' & Hal' & Hc' & _ & _).
  cbn [obind fst snd]. unfold temporary_binary_expr.result.
  rewrite He', Hal', Hal, Hc', Hc. reflexivity.
Qed.

Lemma binary_direct_evaluate_forced_trace e c r e' w w' :
  temporary_binary_expr._c e = forced c ->
  temporary_binary_expr.direct_evaluate e r w = Ok (e', w') ->
  temporary_binary_expr.evaluated e' = true
  /\ trace w' = trace w
                ++ (if temporary_binary_expr.evaluated e then [] else [EvApply c])
                ++ [EvAssign r c].
Proof.
  intros Hc Hde. unfold temporary_binary_expr.direct_evaluate in Hde.
  rewrite Hc in Hde. cbn [is_not_forced] in Hde. returned. subst.
  match goal with
  | H : temporary_binary_expr.evaluate _ _ = _ |- _ =>
      pose proof (binary_evaluate_returned _ _ _ _ H) as (He' & Hal' & Hc' & _ & _);
      rewrite binary_evaluate_cases in H; rename H into Hev
  end.
  match goal with
  | H : temporary_binary_expr.result _ = _ |- _ =>
      unfold temporary_binary_expr.result in H; rewrite Hc', Hc in H; returned;
      cbn in H; injection H as <-
  end.
  split; [done |]. cbn [trace].
  destruct (temporary_binary_expr.evaluated e).
  { by simplify_eq. }
  destruct (temporary_binary_expr.allocated e); [| done].
  rewrite Hc in Hev. cbn in Hev.
  destruct (heap w !! c); simplify_eq. cbn. by rewrite <- app_assoc.
Qed.

(** [result()], case by case. *)
Lemma binary_result_cases e :
  (temporary_binary_expr.evaluated e = false ->
   temporary_binary_expr.result e = AssertFailed "The result has not been evaluated")
  /\ (temporary_binary_expr.evaluated e = true ->
      temporary_binary_expr.allocated e = false ->
      temporary_binary_expr.result e
      = AssertFailed "The result has not been allocated")
  /\ (temporary_binary_expr.evaluated e = true ->
      temporary_binary_expr.allocated e = true ->
      temporary_binary_expr.result e = get_result_op (temporary_binary_expr._c e))
  /\ (forall c : loc,
        temporary_binary_expr.result e = Ok c ->
        temporary_binary_expr.evaluated e = true
        /\ temporary_binary_expr.allocated e = true
        /\ get_result_op (temporary_binary_expr._c e) = Ok c).
Proof.
  unfold temporary_binary_expr.result.
  destruct (temporary_binary_expr.evaluated e), (temporary_binary_expr.allocated e);
    cbn; repeat split; intros; done.
Qed.

(** A second [evaluate()] changes nothing, whatever the first one did. *)
Lemma binary_evaluate_twice e w :
  (e' <- temporary_binary_expr.evaluate e ;; temporary_binary_expr.evaluate e')%etl w
  = temporary_binary_expr.evaluate e w.
Proof.
  unfold bind.
  destruct (temporary_binary_expr.evaluate e w) as [[e' w']| |] eqn:Hev;
    [| reflexivity | reflexivity].
  apply binary_evaluate_returned in Hev as (He' & _).
  cbn [obind fst snd]. rewrite binary_evaluate_cases. by rewrite He'.
Qed.

(** With its storage in place, [evaluate()] returns, and applies the
    operator once if the expression was not evaluated, never otherwise. *)
Lemma binary_evaluate_returns e c w :
  temporary_binary_expr.allocated e = true ->
  get_result_op (temporary_binary_expr._c e) = Ok c ->
  is_Some (heap w !! c) ->
  exists e' w',
    temporary_binary_expr.evaluate e w = Ok (e', w')
    /\ temporary_binary_expr.evaluate e' w' = Ok (e', w')
    /\ temporary_binary_expr.evaluated e' = true
    /\ temporary_binary_expr.result e' = Ok c
    /\ applies w'
       = (applies w + if temporary_binary_expr.evaluated e then 0 else 1)%nat.
Proof.
  intros Hal Hc [old Hold].
  pose proof (binary_evaluate_twice e w) as Htwice.
  pose proof (binary_evaluate_cases e w) as Hev.
  rewrite Hal, Hc, Hold in Hev.
  destruct (temporary_binary_expr.evaluated e) eqn:Hevd;
    rewrite Hev in Htwice; unfold bind in Htwice; rewrite Hev in Htwice;
    cbn [obind fst snd] in Htwice;
    eexists _, _; (split; [exact Hev |]); (split; [exact Htwice |]).
  - repeat split; [done | | lia].
    unfold temporary_binary_expr.result. by rewrite Hevd, Hal.
  - repeat split; [| by rewrite (applies_apply (heap w)), Nat.add_1_r].
    unfold temporary_binary_expr.result. by cbn.
Qed.

(** The move constructor. *)
Lemma binary_move_flags e :
  let d := fst (temporary_binary_expr.move e) in
  let e' := snd (temporary_binary_expr.move e) in
  temporary_binary_expr.evaluated e' = false
  /\ temporary_binary_expr.allocated e' = temporary_binary_expr.allocated e
  /\ temporary_binary_expr.evaluated d = temporary_binary_expr.evaluated e
  /\ temporary_binary_expr.allocated d = temporary_binary_expr.allocated e
  /\ temporary_binary_expr.result d = temporary_binary_expr.result e
  /\ forall w, temporary_binary_expr.result_value d w
               = temporary_binary_expr.result_value e w.
Proof.
  assert (temporary_binary_expr.result (fst (temporary_binary_expr.move e))
          = temporary_binary_expr.result e) as Hres
    by (by destruct e as [a b [p|c] al ev]).
  cbn zeta. repeat split; try done.
  intros w. unfold temporary_binary_expr.result_value. by rewrite Hres.
Qed.

End Binary.

(** *** The claims on temporary expressions *)

(** The scenario of the specification: a forced binary expression over
    operands of shape 3 and 3, its destination of size 3 bound at
    construction; after [direct_evaluate] into that destination it holds
    [apply(a[i], b[i])], and no storage was allocated. *)
Example forced_binary_scenario :
  let e := temporary_binary_expr.make_forced [1; 2; 3] [10; 20; 30] 0%nat in
  temporary_binary_expr.direct_evaluate (Op := samples.add) e 0%nat
    (World [[0; 0; 0]] [])
  = Ok (temporary_binary_expr.Build [1; 2; 3] [10; 20; 30] (forced 0%nat) true true,
        World [[11; 22; 33]] [EvApply 0%nat; EvAssign 0%nat 0%nat]).
Proof. reflexivity. Qed.

(** The scenario of the specification: an expression moved after
    [evaluate()] succeeded. *)
Example move_after_evaluate_scenario :
  let e := temporary_unary_expr.Build [1; 2; 3] (shared_ptr (Some 0%nat)) true true in
  let w := World [[-1; -2; -3]] [EvAllocate 0%nat; EvApply 0%nat] in
  (e0 <- temporary_unary_expr.allocate_temporary (Op := samples.negate)
           (temporary_unary_expr.make [1; 2; 3]) ;;
   temporary_unary_expr.evaluate (Op := samples.negate) e0)%etl (World [] [])
  = Ok (e, w)
  /\ temporary_unary_expr.evaluated (snd (temporary_unary_expr.move e)) = false
  /\ temporary_unary_expr.evaluated (fst (temporary_unary_expr.move e)) = true
  /\ temporary_unary_expr.result_value (fst (temporary_unary_expr.move e)) w
     = Ok [-1; -2; -3].
Proof. repeat split. Qed.

(** C1, as the code has it: [direct_evaluate(r)] on an expression that is
    not forced applies the operator straight into [r], leaving the
    expression, its flags and its own result untouched; on a forced
    expression (its destination [c] bound at construction, hence
    allocated) it runs [evaluate()] on [c] and then copies [c] into [r]. *)
Theorem direct_evaluate_modes {AExpr BExpr R : Type}
    {Op1 : unary_op AExpr R} {Op2 : binary_op AExpr BExpr R}
    (u : temporary_unary_expr.t AExpr) (b : temporary_binary_expr.t AExpr BExpr)
    (c r : loc) (w : world R) :
  (is_not_forced (temporary_unary_expr._c u) = true ->
   temporary_unary_expr.direct_evaluate u r w =
   match heap w !! r with
   | Some old =>
       Ok (u, World (<[r := Op_apply (temporary_unary_expr._a u) old]> (heap w))
                    (trace w ++ [EvApply r]))
   | None => Undefined
   end)
  /\ (temporary_unary_expr._c u = forced c ->
      temporary_unary_expr.allocated u = true ->
      temporary_unary_expr.direct_evaluate u r w =
      (u' <- temporary_unary_expr.evaluate u ;; assign r c ;; ret u')%etl w)
  /\ (is_not_forced (temporary_binary_expr._c b) = true ->
      temporary_binary_expr.direct_evaluate b r w =
      match heap w !! r with
      | Some old =>
          Ok (b, World (<[r := Op_apply2 (temporary_binary_expr._a b)
                                 (temporary_binary_expr._b b) old]> (heap w))
                       (trace w ++ [EvApply r]))
      | None => Undefined
      end)
  /\ (temporary_binary_expr._c b = forced c ->
      temporary_binary_expr.allocated b = true ->
      temporary_binary_expr.direct_evaluate b r w =
      (b' <- temporary_binary_expr.evaluate b ;; assign r c ;; ret b')%etl w).
Proof.
  split; [| split; [| split]].
  - apply unary_direct_evaluate_not_forced.
  - apply unary_direct_evaluate_forced.
  - apply binary_direct_evaluate_not_forced.
  - apply binary_direct_evaluate_forced.
Qed.

Lemma direct_evaluate_modes_witness :
  let w := World [[0; 0; 0]; [9; 9; 9]] [] in
  let u := temporary_unary_expr.Build [1; 2; 3] (shared_ptr (Some 0%nat)) true false in
  let uf := temporary_unary_expr.make_forced [1; 2; 3] 0%nat in
  let b := temporary_binary_expr.make [1; 2; 3] [10; 20; 30] in
  let bf := temporary_binary_expr.make_forced [1; 2; 3] [10; 20; 30] 0%nat in
  temporary_unary_expr.direct_evaluate (Op := samples.negate) u 1%nat w
  = Ok (u, World [[0; 0; 0]; [-1; -2; -3]] [EvApply 1%nat])
  /\ temporary_unary_expr.direct_evaluate (Op := samples.negate) uf 1%nat w
     = (u' <- temporary_unary_expr.evaluate (Op := samples.negate) uf ;;
        assign 1%nat 0%nat ;; ret u')%etl w
  /\ temporary_binary_expr.direct_evaluate (Op := samples.add) b 1%nat w
     = Ok (b, World [[0; 0; 0]; [11; 22; 33]] [EvApply 1%nat])
  /\ temporary_binary_expr.direct_evaluate (Op := samples.add) bf 1%nat w
     = (b' <- temporary_binary_expr.evaluate (Op := samples.add) bf ;;
        assign 1%nat 0%nat ;; ret b')%etl w.
Proof.
  intros w u uf b bf.
  destruct (direct_evaluate_modes (Op1 := samples.negate) (Op2 := samples.add)
              u b 0%nat 1%nat w) as (Hu & _ & Hb & _).
  destruct (direct_evaluate_modes (Op1 := samples.negate) (Op2 := samples.add)
              uf bf 0%nat 1%nat w) as (_ & Huf & _ & Hbf).
  split; [exact (Hu eq_refl) |].
  split; [exact (Huf eq_refl eq_refl) |].
  split; [exact (Hb eq_refl) |].
  exact (Hbf eq_refl eq_refl).
Defined.

(** C1 as stated fails.  A forced expression with destination 0 bound at
    construction, asked to [direct_evaluate] into storage 1, applies the
    operator into its own destination 0, sets [evaluated], and copies
    storage 0 into storage 1; as stated it would apply the operator into
    storage 1 and leave storage 0 and the flag alone.  An expression that
    is not forced and not allocated applies the operator into storage 1;
    as stated it would run [evaluate()], whose assertion fails. *)
Lemma direct_evaluate_modes_swapped :
  let w := World [[0; 0; 0]; [9; 9; 9]] [] in
  let uf := temporary_unary_expr.make_forced [1; 2; 3] 0%nat in
  let u := temporary_unary_expr.make [1; 2; 3] in
  (temporary_unary_expr.direct_evaluate (Op := samples.negate) uf 1%nat w
   = Ok (temporary_unary_expr.Build [1; 2; 3] (forced 0%nat) true true,
         World [[-1; -2; -3]; [-1; -2; -3]] [EvApply 0%nat; EvAssign 1%nat 0%nat])
   /\ temporary_unary_expr.direct_evaluate_as_stated (Op := samples.negate) uf 1%nat w
      = Ok (uf, World [[0; 0; 0]; [-1; -2; -3]] [EvApply 1%nat])
   /\ temporary_unary_expr.direct_evaluate (Op := samples.negate) uf 1%nat w
      <> temporary_unary_expr.direct_evaluate_as_stated (Op := samples.negate)
           uf 1%nat w)
  /\ (temporary_unary_expr.direct_evaluate (Op := samples.negate) u 1%nat w
      = Ok (u, World [[0; 0; 0]; [-1; -2; -3]] [EvApply 1%nat])
      /\ temporary_unary_expr.direct_evaluate_as_stated (Op := samples.negate) u 1%nat w
         = AssertFailed "The result has not been allocated"
      /\ temporary_unary_expr.direct_evaluate (Op := samples.negate) u 1%nat w
         <> temporary_unary_expr.direct_evaluate_as_stated (Op := samples.negate)
              u 1%nat w).
Proof. vm_compute. repeat split; congruence. Qed.

(** C4: [result()] of a temporary expression whose [evaluated] flag or
    [allocated] flag is not set fails the assertion on that flag; it
    returns the result storage only when both flags are set, and then it
    returns [get_result_op::apply(_c)]. *)
Theorem result_requires_both_flags {AExpr BExpr : Type}
    (u : temporary_unary_expr.t AExpr) (b : temporary_binary_expr.t AExpr BExpr) :
  ((temporary_unary_expr.evaluated u = false ->
    temporary_unary_expr.result u
    = AssertFailed "The result has not been evaluated")
   /\ (temporary_unary_expr.evaluated u = true ->
       temporary_unary_expr.allocated u = false ->
       temporary_unary_expr.result u
       = AssertFailed "The result has not been allocated")
   /\ (temporary_unary_expr.evaluated u = true ->
       temporary_unary_expr.allocated u = true ->
       temporary_unary_expr.result u = get_result_op (temporary_unary_expr._c u))
   /\ (forall c : loc,
         temporary_unary_expr.result u = Ok c ->
         temporary_unary_expr.evaluated u = true
         /\ temporary_unary_expr.allocated u = true
         /\ get_result_op (temporary_unary_expr._c u) = Ok c))
  /\ ((temporary_binary_expr.evaluated b = false ->
       temporary_binary_expr.result b
       = AssertFailed "The result has not been evaluated")
      /\ (temporary_binary_expr.evaluated b = true ->
          temporary_binary_expr.allocated b = false ->
          temporary_binary_expr.result b
          = AssertFailed "The result has not been allocated")
      /\ (temporary_binary_expr.evaluated b = true ->
          temporary_binary_expr.allocated b = true ->
          temporary_binary_expr.result b
          = get_result_op (temporary_binary_expr._c b))
      /\ (forall c : loc,
            temporary_binary_expr.result b = Ok c ->
            temporary_binary_expr.evaluated b = true
            /\ temporary_binary_expr.allocated b = true
            /\ get_result_op (temporary_binary_expr._c b) = Ok c)).
Proof.
  split; [apply unary_result_cases | apply binary_result_cases].
Qed.

Lemma result_requires_both_flags_witness :
  let u0 := temporary_unary_expr.Build [1; 2; 3] (shared_ptr (Some 0%nat)) true false in
  let u1 := temporary_unary_expr.Build [1; 2; 3] (shared_ptr (Some 0%nat)) false true in
  let u2 := temporary_unary_expr.Build [1; 2; 3] (shared_ptr (Some 0%nat)) true true in
  let b0 := temporary_binary_expr.make [1; 2; 3] [4; 5; 6] in
  let b1 := temporary_binary_expr.Build [1; 2; 3] [4; 5; 6] (forced 2%nat) false true in
  let b2 := temporary_binary_expr.Build [1; 2; 3] [4; 5; 6] (forced 2%nat) true true in
  (temporary_unary_expr.result u0 = AssertFailed "The result has not been evaluated"
   /\ temporary_unary_expr.result u1 = AssertFailed "The result has not been allocated"
   /\ temporary_unary_expr.result u2 = get_result_op (shared_ptr (Some 0%nat))
   /\ temporary_unary_expr.evaluated u2 = true
       /\ temporary_unary_expr.allocated u2 = true
       /\ get_result_op (temporary_unary_expr._c u2) = Ok 0%nat)
  /\ (temporary_binary_expr.result b0
      = AssertFailed "The result has not been evaluated"
      /\ temporary_binary_expr.result b1
         = AssertFailed "The result has not been allocated"
      /\ temporary_binary_expr.result b2 = get_result_op (forced 2%nat)
      /\ temporary_binary_expr.evaluated b2 = true
          /\ temporary_binary_expr.allocated b2 = true
          /\ get_result_op (temporary_binary_expr._c b2) = Ok 2%nat).
Proof.
  intros u0 u1 u2 b0 b1 b2.
  destruct (result_requires_both_flags u0 b0) as [(Hu0 & _) (Hb0 & _)].
  destruct (result_requires_both_flags u1 b1) as [(_ & Hu1 & _) (_ & Hb1 & _)].
  destruct (result_requires_both_flags u2 b2)
    as [(_ & _ & Hu2 & Hu3) (_ & _ & Hb2 & Hb3)].
  split.
  - exact (conj (Hu0 eq_refl)
             (conj (Hu1 eq_refl eq_refl)
                (conj (Hu2 eq_refl eq_refl) (Hu3 0%nat eq_refl)))).
  - exact (conj (Hb0 eq_refl)
             (conj (Hb1 eq_refl eq_refl)
                (conj (Hb2 eq_refl eq_refl) (Hb3 2%nat eq_refl)))).
Defined.

(** C5: on an allocated temporary expression, [evaluate()] called twice
    ends as [evaluate()] called once does, with the same expression and
    the same storages; and with the result storage in place it returns,
    the second call returning the state it was given, the operator having
    been applied once if the expression was not evaluated before and not
    at all otherwise. *)
Theorem evaluate_idempotent {AExpr BExpr R : Type}
    {Op1 : unary_op AExpr R} {Op2 : binary_op AExpr BExpr R}
    (u : temporary_unary_expr.t AExpr) (b : temporary_binary_expr.t AExpr BExpr)
    (w : world R) :
  (temporary_unary_expr.allocated u = true ->
   (u' <- temporary_unary_expr.evaluate u ;; temporary_unary_expr.evaluate u')%etl w
   = temporary_unary_expr.evaluate u w
   /\ forall c : loc,
        get_result_op (temporary_unary_expr._c u) = Ok c ->
        is_Some (heap w !! c) ->
        exists u' w',
          temporary_unary_expr.evaluate u w = Ok (u', w')
          /\ temporary_unary_expr.evaluate u' w' = Ok (u', w')
          /\ temporary_unary_expr.evaluated u' = true
          /\ temporary_unary_expr.result u' = Ok c
          /\ applies w'
             = (applies w + if temporary_unary_expr.evaluated u then 0 else 1)%nat)
  /\ (temporary_binary_expr.allocated b = true ->
      (b' <- temporary_binary_expr.evaluate b ;;
       temporary_binary_expr.evaluate b')%etl w
      = temporary_binary_expr.evaluate b w
      /\ forall c : loc,
           get_result_op (temporary_binary_expr._c b) = Ok c ->
           is_Some (heap w !! c) ->
           exists b' w',
             temporary_binary_expr.evaluate b w = Ok (b', w')
             /\ temporary_binary_expr.evaluate b' w' = Ok (b', w')
             /\ temporary_binary_expr.evaluated b' = true
             /\ temporary_binary_expr.result b' = Ok c
             /\ applies w'
                = (applies w
                   + if temporary_binary_expr.evaluated b then 0 else 1)%nat).
Proof.
  split; intros Hal; (split; [| intros c Hc Hin]).
  - apply unary_evaluate_twice.
  - by apply unary_evaluate_returns.
  - apply binary_evaluate_twice.
  - by apply binary_evaluate_returns.
Qed.

Lemma evaluate_idempotent_witness :
  let w := World [[0; 0; 0]] [EvAllocate 0%nat] in
  let u := temporary_unary_expr.Build [1; 2; 3] (shared_ptr (Some 0%nat)) true false in
  let b := temporary_binary_expr.make_forced [1; 2; 3] [10; 20; 30] 0%nat in
  ((u' <- temporary_unary_expr.evaluate (Op := samples.negate) u ;;
    temporary_unary_expr.evaluate (Op := samples.negate) u')%etl w
   = temporary_unary_expr.evaluate (Op := samples.negate) u w
   /\ exists u' w',
        temporary_unary_expr.evaluate (Op := samples.negate) u w = Ok (u', w')
        /\ temporary_unary_expr.evaluate (Op := samples.negate) u' w' = Ok (u', w')
        /\ temporary_unary_expr.evaluated u' = true
        /\ temporary_unary_expr.result u' = Ok 0%nat
        /\ applies w' = (applies w + 1)%nat)
  /\ ((b' <- temporary_binary_expr.evaluate (Op := samples.add) b ;;
       temporary_binary_expr.evaluate (Op := samples.add) b')%etl w
      = temporary_binary_expr.evaluate (Op := samples.add) b w
      /\ exists b' w',
           temporary_binary_expr.evaluate (Op := samples.add) b w = Ok (b', w')
           /\ temporary_binary_expr.evaluate (Op := samples.add) b' w' = Ok (b', w')
           /\ temporary_binary_expr.evaluated b' = true
           /\ temporary_binary_expr.result b' = Ok 0%nat
           /\ applies w' = (applies w + 1)%nat).
Proof.
  intros w u b.
  assert (is_Some (heap w !! 0%nat)) as Hin by (eexists; reflexivity).
  destruct (evaluate_idempotent (Op1 := samples.negate) (Op2 := samples.add) u b w)
    as [Hu Hb].
  destruct (Hu eq_refl) as [Hu2 Hu1]. destruct (Hb eq_refl) as [Hb2 Hb1].
  split.
  - exact (conj Hu2 (Hu1 0%nat eq_refl Hin)).
  - exact (conj Hb2 (Hb1 0%nat eq_refl Hin)).
Defined.

(** C6: the move constructor, in whatever state the expression is, leaves
    the expression moved from with [evaluated] false and [allocated] as it
    was; the expression constructed has the flags the other had before the
    move, and its [result()] is the [result()] the other had before the
    move, of the same contents. *)
Theorem move_resets_evaluated {AExpr BExpr R : Type}
    (u : temporary_unary_expr.t AExpr) (b : temporary_binary_expr.t AExpr BExpr) :
  (let d := fst (temporary_unary_expr.move u) in
   let u' := snd (temporary_unary_expr.move u) in
   temporary_unary_expr.evaluated u' = false
   /\ temporary_unary_expr.allocated u' = temporary_unary_expr.allocated u
   /\ temporary_unary_expr.evaluated d = temporary_unary_expr.evaluated u
   /\ temporary_unary_expr.allocated d = temporary_unary_expr.allocated u
   /\ temporary_unary_expr.result d = temporary_unary_expr.result u
   /\ forall w : world R,
        temporary_unary_expr.result_value d w = temporary_unary_expr.result_value u w)
  /\ (let d := fst (temporary_binary_expr.move b) in
      let b' := snd (temporary_binary_expr.move b) in
      temporary_binary_expr.evaluated b' = false
      /\ temporary_binary_expr.allocated b' = temporary_binary_expr.allocated b
      /\ temporary_binary_expr.evaluated d = temporary_binary_expr.evaluated b
      /\ temporary_binary_expr.allocated d = temporary_binary_expr.allocated b
      /\ temporary_binary_expr.result d = temporary_binary_expr.result b
      /\ forall w : world R,
           temporary_binary_expr.result_value d w
           = temporary_binary_expr.result_value b w).
Proof.
  split; [apply unary_move_flags | apply binary_move_flags].
Qed.

(** C10: an expression reached from a constructor through copies, moves,
    [allocate_temporary], [evaluate] and [direct_evaluate] calls that
    return is allocated if it is evaluated; hence its
    [gpu_delegate_valid()] is its [evaluated] flag. *)
Theorem evaluated_implies_allocated {AExpr BExpr R : Type}
    {Op1 : unary_op AExpr R} {Op2 : binary_op AExpr BExpr R}
    (u : temporary_unary_expr.t AExpr) (b : temporary_binary_expr.t AExpr BExpr) :
  (temporary_unary_expr.reachable (R := R) u ->
   (temporary_unary_expr.evaluated u = true ->
    temporary_unary_expr.allocated u = true)
   /\ temporary_unary_expr.gpu_delegate_valid u = temporary_unary_expr.evaluated u)
  /\ (temporary_binary_expr.reachable (R := R) b ->
      (temporary_binary_expr.evaluated b = true ->
       temporary_binary_expr.allocated b = true)
      /\ temporary_binary_expr.gpu_delegate_valid b
         = temporary_binary_expr.evaluated b).
Proof.
  split; intros Hreach.
  - pose proof (unary_reachable_flags u Hreach) as Hinv.
    split; [done |]. unfold temporary_unary_expr.gpu_delegate_valid.
    destruct (temporary_unary_expr.evaluated u); [by rewrite Hinv | done].
  - pose proof (binary_reachable_flags b Hreach) as Hinv.
    split; [done |]. unfold temporary_binary_expr.gpu_delegate_valid.
    destruct (temporary_binary_expr.evaluated b); [by rewrite Hinv | done].
Qed.

Lemma evaluated_implies_allocated_witness :
  let u := temporary_unary_expr.Build [1; 2; 3] (shared_ptr (Some 0%nat)) true true in
  let b := snd (temporary_binary_expr.move
                  (temporary_binary_expr.Build [1; 2; 3] [10; 20; 30]
                     (forced 0%nat) true true)) in
  (temporary_unary_expr.reachable (Op := samples.negate) u
   /\ temporary_binary_expr.reachable (Op := samples.add) b)
  /\ temporary_unary_expr.gpu_delegate_valid u = true
  /\ temporary_binary_expr.gpu_delegate_valid b = false.
Proof.
  intros u b.
  assert (temporary_unary_expr.reachable (Op := samples.negate) u) as Hu.
  { apply temporary_unary_expr.reach_run
      with (c := temporary_unary_expr.Evaluate)
           (e := temporary_unary_expr.Build [1; 2; 3]
                   (shared_ptr (Some 0%nat)) true false)
           (w := World [[0; 0; 0]] [EvAllocate 0%nat])
           (w' := World [[-1; -2; -3]] [EvAllocate 0%nat; EvApply 0%nat]);
      [| reflexivity].
    apply temporary_unary_expr.reach_run
      with (c := temporary_unary_expr.AllocateTemporary)
           (e := temporary_unary_expr.make [1; 2; 3])
           (w := World [] [])
           (w' := World [[0; 0; 0]] [EvAllocate 0%nat]);
      [| reflexivity].
    apply temporary_unary_expr.reach_make. }
  assert (temporary_binary_expr.reachable (Op := samples.add) b) as Hb.
  { apply temporary_binary_expr.reach_run
      with (c := temporary_binary_expr.MovedFrom)
           (e := temporary_binary_expr.Build [1; 2; 3] [10; 20; 30]
                   (forced 0%nat) true true)
           (w := World [[11; 22; 33]] [EvApply 0%nat])
           (w' := World [[11; 22; 33]] [EvApply 0%nat]);
      [| reflexivity].
    apply temporary_binary_expr.reach_run
      with (c := temporary_binary_expr.Evaluate)
           (e := temporary_binary_expr.make_forced [1; 2; 3] [10; 20; 30] 0%nat)
           (w := World [[0; 0; 0]] [])
           (w' := World [[11; 22; 33]] [EvApply 0%nat]);
      [| reflexivity].
    apply temporary_binary_expr.reach_make_forced. }
  destruct (evaluated_implies_allocated (Op1 := samples.negate)
              (Op2 := samples.add) u b) as [Hgu Hgb].
  split; [exact (conj Hu Hb) |].
  split.
  - exact (proj2 (Hgu Hu)).
  - exact (proj2 (Hgb Hb)).
Defined.

(** * Further properties of the code *)

(** ** Repeat counts *)

Lemma mul_all_range D : 0 <= mul_all D <= SizeT.SIZE_MAX.
Proof.
  destruct D; cbn; [by vm_compute | apply wrap_range].
Qed.

Lemma size_t_mul_assoc a b c :
  SizeT.mul (SizeT.mul a b) c = SizeT.mul a (SizeT.mul b c).
Proof.
  unfold SizeT.mul, SizeT.wrap.
  rewrite Z.mul_mod_idemp_l, Z.mul_mod_idemp_r by by vm_compute.
  by rewrite Z.mul_assoc.
Qed.

Lemma size_t_mul_comm a b : SizeT.mul a b = SizeT.mul b a.
Proof. unfold SizeT.mul. by rewrite Z.mul_comm. Qed.

Lemma size_t_mul_1_l a : 0 <= a <= SizeT.SIZE_MAX -> SizeT.mul 1 a = a.
Proof. intros Ha. unfold SizeT.mul. rewrite Z.mul_1_l. by apply wrap_small. Qed.

Lemma mul_all_app D1 D2 :
  mul_all (D1 ++ D2) = SizeT.mul (mul_all D1) (mul_all D2).
Proof.
  induction D1 as [|d D1 IH]; cbn [app].
  - change (mul_all []) with 1. symmetry. apply size_t_mul_1_l, mul_all_range.
  - change (mul_all (d :: ?l)) with (SizeT.mul d (mul_all l)).
    by rewrite IH, size_t_mul_assoc.
Qed.

Lemma fold_left_mul D a :
  D <> [] -> fold_left SizeT.mul D a = SizeT.mul a (mul_all D).
Proof.
  revert a. induction D as [|d D IH]; [done |]. intros a _. cbn [fold_left].
  destruct D as [|d' D].
  - cbn. unfold SizeT.mul, SizeT.wrap.
    rewrite Z.mul_1_r, Z.mul_mod_idemp_r by by vm_compute. done.
  - rewrite IH by done.
    change (mul_all (d :: ?l)) with (SizeT.mul d (mul_all l)).
    apply size_t_mul_assoc.
Qed.

(** The product cached by the dynamic transformers is the product of the
    static ones. *)
Lemma accumulate_mul_all D : accumulate_mul D = mul_all D.
Proof.
  unfold accumulate_mul. destruct D as [|d D]; [done |].
  rewrite fold_left_mul by done. apply size_t_mul_1_l, mul_all_range.
Qed.

Lemma mul_all_zero D : 0 ∈ D -> mul_all D = 0.
Proof.
  induction D as [|d D IH]; [by intros ?%elem_of_nil |].
  change (mul_all (d :: D)) with (SizeT.mul d (mul_all D)).
  intros [<- | Hin]%elem_of_cons.
  - done.
  - rewrite IH by done. unfold SizeT.mul. by rewrite Z.mul_0_r.
Qed.

Lemma wrap_le z : 0 <= z -> SizeT.wrap z <= z.
Proof. intros Hz. unfold SizeT.wrap. apply Z.mod_le; [done | by vm_compute]. Qed.

Lemma container_read {V : Type} (data : list V) (j : nat) :
  read_flat data (Z.of_nat j) = data !! j /\ index data (Z.of_nat j) = data !! j.
Proof.
  cbn. unfold container_at.
  destruct (Z.leb_spec 0 (Z.of_nat j)); [| lia]. by rewrite Nat2Z.id.
Qed.

Lemma container_read_in {V : Type} (data : list V) (j : Z) :
  0 <= j < size data ->
  exists x, read_flat data j = Some x /\ index data j = Some x /\ x ∈ data.
Proof.
  cbn. intros Hj. unfold container_at.
  destruct (Z.leb_spec 0 j); [| lia].
  destruct (lookup_lt_is_Some_2 data (Z.to_nat j)) as [x Hx]; [lia |].
  exists x. rewrite Hx. eauto using list_elem_of_lookup_2.
Qed.

(** ** Repeat transformers over a container *)

Section RepeatContainer.
Context {V : Type}.
Implicit Types (data : list V) (D : list Z).

Lemma repeat_index_bounds data (m i : Z) :
  0 <= m ->
  0 <= i < SizeT.mul m (size data) ->
  m <> 0 /\ size data <> 0
  /\ 0 <= i / m < size data /\ 0 <= i mod size data < size data.
Proof.
  intros Hm Hi.
  assert (0 < SizeT.mul m (size data)) as [Hm0 HN0]%mul_pos_factors by lia.
  assert (0 <= size data) as HN by (cbn; lia).
  assert (i < m * size data).
  { pose proof (wrap_le (m * size data)). unfold SizeT.mul in Hi. nia. }
  repeat split; try done.
  - apply Z.div_pos; lia.
  - apply Z.div_lt_upper_bound; lia.
  - apply Z.mod_pos_bound. lia.
  - apply Z.mod_pos_bound. lia.
Qed.

(** Inside [[0, size)] the four transformers read an element of the
    container: the index handed to the container is inside it. *)
Theorem repeat_reads_in_bounds data D (i : Z) :
  (0 <= i < size (rep_r_transformer.make data D) ->
   exists x, read_flat (rep_r_transformer.make data D) i = Some x
             /\ index (rep_r_transformer.make data D) i = Some x /\ x ∈ data)
  /\ (0 <= i < size (rep_l_transformer.make data D) ->
      exists x, read_flat (rep_l_transformer.make data D) i = Some x
                /\ index (rep_l_transformer.make data D) i = Some x /\ x ∈ data)
  /\ (0 <= i < size (dyn_rep_r_transformer.make data D) ->
      exists x, read_flat (dyn_rep_r_transformer.make data D) i = Some x
                /\ index (dyn_rep_r_transformer.make data D) i = Some x /\ x ∈ data)
  /\ (0 <= i < size (dyn_rep_l_transformer.make data D) ->
      exists x, read_flat (dyn_rep_l_transformer.make data D) i = Some x
                /\ index (dyn_rep_l_transformer.make data D) i = Some x /\ x ∈ data).
Proof.
  split; [| split; [| split]]; intros Hi.
  - apply repeat_index_bounds in Hi as (HM & HN & Hdiv & Hmod);
      [| apply mul_all_nonneg].
    destruct (rep_r_reads data D i HM) as [-> ->]. by apply container_read_in.
  - apply repeat_index_bounds in Hi as (HM & HN & Hdiv & Hmod);
      [| apply mul_all_nonneg].
    destruct (rep_l_reads data D i HN) as [-> ->]. by apply container_read_in.
  - change (size (dyn_rep_r_transformer.make data D))
      with (SizeT.mul (accumulate_mul D) (size data)) in Hi.
    apply repeat_index_bounds in Hi as (HM & HN & Hdiv & Hmod);
      [| rewrite accumulate_mul_all; apply mul_all_nonneg].
    destruct (dyn_rep_r_reads data D i HM) as [-> ->]. by apply container_read_in.
  - change (size (dyn_rep_l_transformer.make data D))
      with (SizeT.mul (accumulate_mul D) (size data)) in Hi.
    apply repeat_index_bounds in Hi as (HM & HN & Hdiv & Hmod);
      [| rewrite accumulate_mul_all; apply mul_all_nonneg].
    destruct (dyn_rep_l_reads data D i HN) as [-> ->]. by apply container_read_in.
Qed.

End RepeatContainer.

Lemma repeat_reads_in_bounds_witness :
  let data := [10; 20; 30] in
  (0 <= 7 < size (rep_r_transformer.make data [3])
   /\ 0 <= 7 < size (rep_l_transformer.make data [3])
   /\ 0 <= 7 < size (dyn_rep_r_transformer.make data [3])
   /\ 0 <= 7 < size (dyn_rep_l_transformer.make data [3]))
  /\ (exists x, read_flat (rep_r_transformer.make data [3]) 7 = Some x
                /\ index (rep_r_transformer.make data [3]) 7 = Some x /\ x ∈ data)
  /\ (exists x, read_flat (rep_l_transformer.make data [3]) 7 = Some x
                /\ index (rep_l_transformer.make data [3]) 7 = Some x /\ x ∈ data)
  /\ (exists x, read_flat (dyn_rep_r_transformer.make data [3]) 7 = Some x
                /\ index (dyn_rep_r_transformer.make data [3]) 7 = Some x /\ x ∈ data)
  /\ (exists x, read_flat (dyn_rep_l_transformer.make data [3]) 7 = Some x
                /\ index (dyn_rep_l_transformer.make data [3]) 7 = Some x /\ x ∈ data).
Proof.
  intros data.
  assert (0 <= 7 < size (rep_r_transformer.make data [3])) as H1 by (vm_compute; done).
  assert (0 <= 7 < size (rep_l_transformer.make data [3])) as H2 by (vm_compute; done).
  assert (0 <= 7 < size (dyn_rep_r_transformer.make data [3])) as H3
    by (vm_compute; done).
  assert (0 <= 7 < size (dyn_rep_l_transformer.make data [3])) as H4
    by (vm_compute; done).
  destruct (repeat_reads_in_bounds data [3] 7) as (Hr & Hl & Hdr & Hdl).
  exact (conj (conj H1 (conj H2 (conj H3 H4)))
           (conj (Hr H1) (conj (Hl H2) (conj (Hdr H3) (Hdl H4))))).
Defined.


(** A dynamic repeat transformer built from the counts [D] has the size
    and the reads of the static transformer of counts [D]: the product it
    caches at construction is the product the static one recomputes. *)
Theorem dynamic_repeat_as_static {V T : Type} `{!etl_expr V T}
    (sub : T) (D : list Z) (i : Z) :
  dyn_rep_r_transformer.m (dyn_rep_r_transformer.make sub D) = mul_all D
  /\ dyn_rep_l_transformer.m (dyn_rep_l_transformer.make sub D) = mul_all D
  /\ size (dyn_rep_r_transformer.make sub D) = size (rep_r_transformer.make sub D)
  /\ size (dyn_rep_l_transformer.make sub D) = size (rep_l_transformer.make sub D)
  /\ read_flat (dyn_rep_r_transformer.make sub D) i
     = read_flat (rep_r_transformer.make sub D) i
  /\ index (dyn_rep_r_transformer.make sub D) i
     = index (rep_r_transformer.make sub D) i
  /\ read_flat (dyn_rep_l_transformer.make sub D) i
     = read_flat (rep_l_transformer.make sub D) i
  /\ index (dyn_rep_l_transformer.make sub D) i
     = index (rep_l_transformer.make sub D) i.
Proof.
  cbn -[mul_all accumulate_mul]. rewrite !accumulate_mul_all. by repeat split.
Qed.

(** A repeat transformer over a sub expression of size 0, or with a repeat
    count 0, has size 0 and nothing to flatten. *)
Theorem repeat_of_nothing {V T : Type} `{!etl_expr V T} (sub : T) (D : list Z) :
  size sub = 0 \/ 0 ∈ D ->
  size (rep_r_transformer.make sub D) = 0
  /\ size (rep_l_transformer.make sub D) = 0
  /\ size (dyn_rep_r_transformer.make sub D) = 0
  /\ size (dyn_rep_l_transformer.make sub D) = 0
  /\ flatten (rep_r_transformer.make sub D) = []
  /\ flatten (rep_l_transformer.make sub D) = []
  /\ flatten (dyn_rep_r_transformer.make sub D) = []
  /\ flatten (dyn_rep_l_transformer.make sub D) = [].
Proof.
  intros Hzero.
  assert (SizeT.mul (mul_all D) (size sub) = 0) as Hsize.
  { unfold SizeT.mul. destruct Hzero as [-> | ->%mul_all_zero].
    - by rewrite Z.mul_0_r.
    - by rewrite Z.mul_0_l. }
  unfold flatten. cbn -[mul_all accumulate_mul].
  rewrite !accumulate_mul_all, !Hsize. by repeat split.
Qed.

Lemma repeat_of_nothing_witness :
  (size (@nil Z) = 0 \/ 0 ∈ [2; 0; 3])
  /\ size (rep_r_transformer.make [1; 2] [2; 0; 3]) = 0
  /\ flatten (rep_l_transformer.make (@nil Z) [2]) = [].
Proof.
  assert (size [1; 2] = 0 \/ 0 ∈ [2; 0; 3]) as H1 by (right; do 2 constructor).
  assert (size (@nil Z) = 0 \/ 0 ∈ [2]) as H2 by (by left).
  split; [by left |].
  split.
  - exact (proj1 (repeat_of_nothing [1; 2] [2; 0; 3] H1)).
  - exact (proj1 (proj2 (proj2 (proj2 (proj2 (proj2
              (repeat_of_nothing (@nil Z) [2] H2))))))).
Defined.

(** ** What the repeat transformers lay out *)

Section Layout.
Context {V : Type}.
Implicit Types (data : list V) (D : list Z).

Lemma flatten_lookup_nat {E : Type} `{!etl_expr V E} (e : E) (k : nat) :
  flatten e !! k
  = if decide (k < Z.to_nat (size e))%nat then Some (read_flat e (Z.of_nat k))
    else None.
Proof.
  case_decide as Hk.
  - rewrite <- (Nat2Z.id k) at 1. apply flatten_lookup. lia.
  - apply lookup_ge_None. rewrite flatten_length. lia.
Qed.

Lemma join_replicate_lookup data (m k : nat) :
  (k < m * length data)%nat ->
  mjoin (replicate m data) !! k = data !! (k mod length data)%nat.
Proof.
  intros Hk. set (n := length data) in *.
  assert (n <> 0)%nat as Hn by (intros Hn0; rewrite Hn0 in Hk; lia).
  assert (k mod n < n)%nat as Hmod by (by apply Nat.mod_upper_bound).
  destruct (lookup_lt_is_Some_2 data (k mod n)%nat Hmod) as [x Hx].
  rewrite Hx. rewrite (Nat.div_mod_eq k n) at 1.
  rewrite (Nat.mul_comm n).
  apply (join_lookup_Some_same_length' n); [| done |].
  - by apply Forall_replicate.
  - exists data. split; [| done].
    apply lookup_replicate_2. apply Nat.Div0.div_lt_upper_bound. lia.
Qed.

Lemma join_fmap_replicate_lookup data (m k : nat) :
  (k < m * length data)%nat ->
  mjoin (replicate m <$> data) !! k = data !! (k / m)%nat.
Proof.
  intros Hk.
  assert (m <> 0)%nat as Hm by (intros ->; lia).
  assert (k / m < length data)%nat as Hdiv
    by (apply Nat.Div0.div_lt_upper_bound; lia).
  destruct (lookup_lt_is_Some_2 data (k / m)%nat Hdiv) as [x Hx].
  rewrite Hx. rewrite (Nat.div_mod_eq k m) at 1.
  rewrite (Nat.mul_comm m).
  apply (join_lookup_Some_same_length' m).
  - apply Forall_fmap, Forall_forall. intros y _. cbn. apply length_replicate.
  - by apply Nat.mod_upper_bound.
  - exists (replicate m x). split.
    + by rewrite list_lookup_fmap, Hx.
    + apply lookup_replicate_2. by apply Nat.mod_upper_bound.
Qed.

Lemma length_join_replicate data (m : nat) :
  length (mjoin (replicate m data)) = (m * length data)%nat.
Proof.
  rewrite length_join, fmap_replicate. apply sum_list_replicate.
Qed.

Lemma length_join_fmap_replicate data (m : nat) :
  length (mjoin (replicate m <$> data)) = (m * length data)%nat.
Proof.
  induction data as [|x data IH]; csimpl; [lia |].
  rewrite length_app, length_replicate, IH. lia.
Qed.

(** The left repeat transformer, flattened, is the container repeated as a
    whole, once per repetition (when the element count is a
    [std::size_t]). *)
Theorem flatten_left_repeat data D :
  mul_all D * size data <= SizeT.SIZE_MAX ->
  flatten (rep_l_transformer.make data D)
  = Some <$> mjoin (replicate (Z.to_nat (mul_all D)) data).
Proof.
  intros Hfit. set (m := Z.to_nat (mul_all D)).
  pose proof (mul_all_nonneg D) as HM.
  assert (size (rep_l_transformer.make data D) = mul_all D * size data) as Hsize.
  { change (size (rep_l_transformer.make data D))
      with (SizeT.wrap (mul_all D * size data)).
    apply wrap_small. change (size data) with (Z.of_nat (length data)) in *. nia. }
  assert (Z.to_nat (mul_all D * size data) = (m * length data)%nat) as Hlen
    by (change (size data) with (Z.of_nat (length data)); subst m; nia).
  apply list_eq. intros k.
  rewrite flatten_lookup_nat, Hsize, Hlen, list_lookup_fmap.
  case_decide as Hk.
  - rewrite join_replicate_lookup by done.
    assert (length data <> 0)%nat as Hn by (intros Hn0; rewrite Hn0 in Hk; lia).
    destruct (rep_l_reads data D (Z.of_nat k)) as [-> _]; [cbn; lia |].
    change (size data) with (Z.of_nat (length data)).
    rewrite <- Nat2Z.inj_mod.
    destruct (container_read data (k mod length data)%nat) as [-> _].
    destruct (lookup_lt_is_Some_2 data (k mod length data)%nat) as [x ->];
      [by apply Nat.mod_upper_bound | done].
  - assert (mjoin (replicate m data) !! k = None) as ->; [| done].
    apply lookup_ge_None. rewrite length_join_replicate. lia.
Qed.

(** The right repeat transformer, flattened, is the container with each
    element repeated in place, once per repetition. *)
Theorem flatten_right_repeat data D :
  mul_all D * size data <= SizeT.SIZE_MAX ->
  flatten (rep_r_transformer.make data D)
  = Some <$> mjoin (replicate (Z.to_nat (mul_all D)) <$> data).
Proof.
  intros Hfit. set (m := Z.to_nat (mul_all D)).
  pose proof (mul_all_nonneg D) as HM.
  assert (size (rep_r_transformer.make data D) = mul_all D * size data) as Hsize.
  { change (size (rep_r_transformer.make data D))
      with (SizeT.wrap (mul_all D * size data)).
    apply wrap_small. change (size data) with (Z.of_nat (length data)) in *. nia. }
  assert (Z.to_nat (mul_all D * size data) = (m * length data)%nat) as Hlen
    by (change (size data) with (Z.of_nat (length data)); subst m; nia).
  apply list_eq. intros k.
  rewrite flatten_lookup_nat, Hsize, Hlen, list_lookup_fmap.
  case_decide as Hk.
  - rewrite join_fmap_replicate_lookup by done.
    assert (m <> 0)%nat as Hm by (intros Hm0; rewrite Hm0 in Hk; lia).
    destruct (rep_r_reads data D (Z.of_nat k)) as [-> _]; [lia |].
    replace (mul_all D) with (Z.of_nat m) by lia.
    rewrite <- Nat2Z.inj_div.
    destruct (container_read data (k / m)%nat) as [-> _].
    destruct (lookup_lt_is_Some_2 data (k / m)%nat) as [x ->];
      [apply Nat.Div0.div_lt_upper_bound; lia | done].
  - assert (mjoin (replicate m <$> data) !! k = None) as ->; [| done].
    apply lookup_ge_None. rewrite length_join_fmap_replicate. lia.
Qed.

End Layout.

Lemma flatten_left_repeat_witness :
  mul_all [2; 3] * size [7; 8] <= SizeT.SIZE_MAX
  /\ flatten (rep_l_transformer.make [7; 8] [2; 3])
     = Some <$> mjoin (replicate (Z.to_nat (mul_all [2; 3])) [7; 8]).
Proof.
  assert (mul_all [2; 3] * size [7; 8] <= SizeT.SIZE_MAX) as Hfit
    by (vm_compute; done).
  exact (conj Hfit (flatten_left_repeat [7; 8] [2; 3] Hfit)).
Defined.

Lemma flatten_right_repeat_witness :
  mul_all [2; 3] * size [7; 8] <= SizeT.SIZE_MAX
  /\ flatten (rep_r_transformer.make [7; 8] [2; 3])
     = Some <$> mjoin (replicate (Z.to_nat (mul_all [2; 3])) <$> [7; 8]).
Proof.
  assert (mul_all [2; 3] * size [7; 8] <= SizeT.SIZE_MAX) as Hfit
    by (vm_compute; done).
  exact (conj Hfit (flatten_right_repeat [7; 8] [2; 3] Hfit)).
Defined.

(** ** The extents of the repeat transformers *)

Section Extents.
Context {V T : Type} `{!etl_expr V T} `{!etl_shape T}.
Implicit Types (sub : T) (D : list Z).

Lemma map_seq_lookup {A : Type} (f : nat -> A) (n k : nat) :
  map f (seq 0 n) !! k = if decide (k < n)%nat then Some (f k) else None.
Proof.
  change (map f (seq 0 n)) with (f <$> seq 0 n). rewrite list_lookup_fmap.
  case_decide.
  - by rewrite lookup_seq_lt.
  - by rewrite lookup_seq_ge by lia.
Qed.

Lemma dyn_nth_size_lookup D (j : nat) : dyn_nth_size D (Z.of_nat j) = D !! j.
Proof.
  unfold dyn_nth_size. destruct (Z.leb_spec 0 (Z.of_nat j)); [| lia].
  by rewrite Nat2Z.id.
Qed.

(** The extents of a transformer that appends the counts [D]. *)
Lemma appended_extents {E : Type} `{!etl_shape E} (e : E) sub D :
  0 <= dimensions sub ->
  dimensions e = Z.of_nat (length D) + dimensions sub ->
  (forall d, dim e d = if d <? dimensions sub then dim sub d
                       else dyn_nth_size D (d - dimensions sub)) ->
  extents e = extents sub ++ (Some <$> D).
Proof.
  intros Hsd Hdims Hdim. apply list_eq. intros k. unfold extents.
  rewrite map_seq_lookup, Hdims, Hdim.
  destruct (decide (k < Z.to_nat (dimensions sub))%nat) as [Hk | Hk].
  - rewrite lookup_app_l by (rewrite length_map, length_seq; lia).
    rewrite map_seq_lookup. rewrite !decide_True by lia.
    destruct (Z.ltb_spec (Z.of_nat k) (dimensions sub)); [done | lia].
  - rewrite lookup_app_r by (rewrite length_map, length_seq; lia).
    rewrite length_map, length_seq, list_lookup_fmap.
    destruct (Z.ltb_spec (Z.of_nat k) (dimensions sub)); [lia |].
    replace (Z.of_nat k - dimensions sub)
      with (Z.of_nat (k - Z.to_nat (dimensions sub))) by lia.
    rewrite dyn_nth_size_lookup.
    case_decide as Hin.
    + destruct (lookup_lt_is_Some_2 D (k - Z.to_nat (dimensions sub))) as [x ->];
        [lia | done].
    + by rewrite lookup_ge_None_2 by lia.
Qed.

(** The extents of a transformer that prepends the counts [D]. *)
Lemma prepended_extents {E : Type} `{!etl_shape E} (e : E) sub D :
  0 <= dimensions sub ->
  dimensions e = Z.of_nat (length D) + dimensions sub ->
  (forall d, dim e d = if Z.of_nat (length D) <=? d
                       then dim sub (d - Z.of_nat (length D))
                       else dyn_nth_size D d) ->
  extents e = (Some <$> D) ++ extents sub.
Proof.
  intros Hsd Hdims Hdim. apply list_eq. intros k. unfold extents.
  rewrite map_seq_lookup, Hdims, Hdim.
  destruct (decide (k < length D)%nat) as [Hk | Hk].
  - rewrite lookup_app_l by (rewrite length_fmap; lia).
    rewrite list_lookup_fmap, decide_True by lia.
    destruct (Z.leb_spec (Z.of_nat (length D)) (Z.of_nat k)); [lia |].
    rewrite dyn_nth_size_lookup.
    by destruct (lookup_lt_is_Some_2 D k Hk) as [x ->].
  - rewrite lookup_app_r by (rewrite length_fmap; lia).
    rewrite length_fmap, map_seq_lookup.
    destruct (Z.leb_spec (Z.of_nat (length D)) (Z.of_nat k)); [| lia].
    replace (Z.of_nat k - Z.of_nat (length D)) with (Z.of_nat (k - length D)) by lia.
    case_decide; case_decide; try done; lia.
Qed.

(** The right transformers append the repeat counts to the extents of the
    sub expression, the left transformers prepend them. *)
Theorem repeat_extents sub D :
  0 <= dimensions sub ->
  extents (rep_r_transformer.make sub D) = extents sub ++ (Some <$> D)
  /\ extents (dyn_rep_r_transformer.make sub D) = extents sub ++ (Some <$> D)
  /\ extents (rep_l_transformer.make sub D) = (Some <$> D) ++ extents sub
  /\ extents (dyn_rep_l_transformer.make sub D) = (Some <$> D) ++ extents sub.
Proof.
  intros Hsd. split; [| split; [| split]].
  - by apply appended_extents.
  - by apply appended_extents.
  - by apply prepended_extents.
  - by apply prepended_extents.
Qed.

(** If the size of the sub expression is the product of its extents, the
    size of the transformer is the product of its own extents (products
    of [std::size_t]). *)
Theorem repeat_size_is_product sub D (ds : list Z) :
  0 <= dimensions sub ->
  extents sub = Some <$> ds ->
  size sub = mul_all ds ->
  (extents (rep_r_transformer.make sub D) = Some <$> (ds ++ D)
   /\ size (rep_r_transformer.make sub D) = mul_all (ds ++ D))
  /\ (extents (dyn_rep_r_transformer.make sub D) = Some <$> (ds ++ D)
      /\ size (dyn_rep_r_transformer.make sub D) = mul_all (ds ++ D))
  /\ (extents (rep_l_transformer.make sub D) = Some <$> (D ++ ds)
      /\ size (rep_l_transformer.make sub D) = mul_all (D ++ ds))
  /\ (extents (dyn_rep_l_transformer.make sub D) = Some <$> (D ++ ds)
      /\ size (dyn_rep_l_transformer.make sub D) = mul_all (D ++ ds)).
Proof.
  intros Hsd Hext Hsize. rewrite !fmap_app, <- Hext, !mul_all_app.
  assert (extents (rep_r_transformer.make sub D) = extents sub ++ (Some <$> D))
    as -> by by apply appended_extents.
  assert (extents (dyn_rep_r_transformer.make sub D) = extents sub ++ (Some <$> D))
    as -> by by apply appended_extents.
  assert (extents (rep_l_transformer.make sub D) = (Some <$> D) ++ extents sub)
    as -> by by apply prepended_extents.
  assert (extents (dyn_rep_l_transformer.make sub D) = (Some <$> D) ++ extents sub)
    as -> by by apply prepended_extents.
  cbn -[mul_all accumulate_mul]. rewrite accumulate_mul_all, Hsize.
  repeat split; try done; apply size_t_mul_comm.
Qed.

End Extents.

Lemma repeat_extents_witness :
  0 <= dimensions [1; 2; 3]
  /\ extents (rep_r_transformer.make [1; 2; 3] [4; 5]) = [Some 3; Some 4; Some 5]
  /\ extents (rep_l_transformer.make [1; 2; 3] [4; 5]) = [Some 4; Some 5; Some 3].
Proof.
  assert (0 <= dimensions [1; 2; 3]) as Hsd by (by vm_compute).
  destruct (repeat_extents [1; 2; 3] [4; 5] Hsd) as (Hr & _ & Hl & _).
  exact (conj Hsd (conj Hr Hl)).
Defined.

Lemma repeat_size_is_product_witness :
  (0 <= dimensions [1; 2; 3]
   /\ extents [1; 2; 3] = Some <$> [3]
   /\ size [1; 2; 3] = mul_all [3])
  /\ size (rep_r_transformer.make [1; 2; 3] [4; 5]) = mul_all ([3] ++ [4; 5])
  /\ size (rep_l_transformer.make [1; 2; 3] [4; 5]) = mul_all ([4; 5] ++ [3]).
Proof.
  assert (0 <= dimensions [1; 2; 3]) as Hsd by (by vm_compute).
  assert (extents [1; 2; 3] = Some <$> [3]) as Hext by reflexivity.
  assert (size [1; 2; 3] = mul_all [3]) as Hsize by reflexivity.
  destruct (repeat_size_is_product [1; 2; 3] [4; 5] [3] Hsd Hext Hsize)
    as ((_ & Hr) & _ & (_ & Hl) & _).
  exact (conj (conj Hsd (conj Hext Hsize)) (conj Hr Hl)).
Defined.

(** ** More on the protocol of temporary expressions *)

Section HeapFacts.
Context {R : Type}.
Implicit Types (h : list R).

Lemma lookup_fresh h (r : R) : (h ++ [r]) !! length h = Some r.
Proof. by rewrite lookup_app_r, Nat.sub_diag by lia. Qed.

Lemma insert_fresh h (r x : R) : <[length h := x]> (h ++ [r]) = h ++ [x].
Proof.
  replace (length h) with (length h + 0)%nat at 1 by lia.
  by rewrite insert_app_r.
Qed.

End HeapFacts.

Section UnaryMore.
Context {AExpr R : Type} {Op : unary_op AExpr R}.
Implicit Types (e : temporary_unary_expr.t AExpr) (w : world R).

Lemma unary_allocate_evaluate (a : AExpr) w :
  (e <- temporary_unary_expr.allocate_temporary (temporary_unary_expr.make a) ;;
   temporary_unary_expr.evaluate e)%etl w
  = Ok (temporary_unary_expr.Build a (shared_ptr (Some (length (heap w)))) true true,
        World (heap w ++ [Op_apply a (Op_allocate a)])
              (trace w ++ [EvAllocate (length (heap w)); EvApply (length (heap w))])).
Proof.
  unfold bind at 1. cbn [temporary_unary_expr.allocate_temporary
    temporary_unary_expr.make temporary_unary_expr._c temporary_unary_expr._a
    temporary_unary_expr.evaluated].
  unfold bind at 1, reset, ret. cbn [obind fst snd].
  rewrite unary_evaluate_cases. cbn.
  rewrite lookup_fresh. by rewrite insert_fresh, <- app_assoc.
Qed.

Lemma unary_allocate_twice e w :
  (e1 <- temporary_unary_expr.allocate_temporary e ;;
   temporary_unary_expr.allocate_temporary e1)%etl w
  = temporary_unary_expr.allocate_temporary e w.
Proof.
  by destruct e as [a [[p|]|c] al ev].
Qed.

Lemma unary_evaluate_frame e e' w w' :
  temporary_unary_expr.evaluate e w = Ok (e', w') ->
  length (heap w') = length (heap w)
  /\ forall l : loc,
       get_result_op (temporary_unary_expr._c e) <> Ok l ->
       heap w' !! l = heap w !! l.
Proof.
  rewrite unary_evaluate_cases. intros Hev.
  destruct (temporary_unary_expr.evaluated e); [by simplify_eq |].
  destruct (temporary_unary_expr.allocated e); [| done].
  destruct (get_result_op _) as [c| |]; try done.
  destruct (heap w !! c); simplify_eq. cbn. split.
  - apply length_insert.
  - intros l Hl. apply list_lookup_insert_ne. congruence.
Qed.

Lemma unary_copy_after_evaluate e w :
  temporary_unary_expr.evaluated e = true ->
  temporary_unary_expr.result (temporary_unary_expr.copy e)
  = temporary_unary_expr.result e
  /\ temporary_unary_expr.evaluate (temporary_unary_expr.copy e) w
     = Ok (temporary_unary_expr.copy e, w).
Proof.
  intros Hev. split; [by destruct e |].
  rewrite unary_evaluate_cases. cbn. by rewrite Hev.
Qed.

Lemma unary_copy_before_evaluate e e' (c : loc) w w' :
  temporary_unary_expr.evaluated e = false ->
  temporary_unary_expr.evaluate e w = Ok (e', w') ->
  get_result_op (temporary_unary_expr._c e) = Ok c ->
  temporary_unary_expr.result (temporary_unary_expr.copy e)
  = AssertFailed "The result has not been evaluated"
  /\ exists old new,
       heap w !! c = Some old
       /\ heap w' !! c = Some new
       /\ temporary_unary_expr.evaluate (temporary_unary_expr.copy e) w'
          = Ok (e', World (<[c := Op_apply (temporary_unary_expr._a e) new]> (heap w'))
                          (trace w' ++ [EvApply c]))
       /\ applies (World (<[c := Op_apply (temporary_unary_expr._a e) new]> (heap w'))
                         (trace w' ++ [EvApply c]))
          = (applies w + 2)%nat.
Proof.
  intros Hnot Hev Hc. split.
  { unfold temporary_unary_expr.result. cbn. by rewrite Hnot. }
  rewrite unary_evaluate_cases, Hnot in Hev.
  destruct (temporary_unary_expr.allocated e) eqn:Hal; [| done].
  rewrite Hc in Hev. destruct (heap w !! c) as [old|] eqn:Hold; [| done].
  simplify_eq. cbn [heap trace].
  assert (c < length (heap w))%nat as Hlt by eauto using lookup_lt_Some.
  exists old, (Op_apply (temporary_unary_expr._a e) old).
  split; [done |]. split; [by apply list_lookup_insert_eq |].
  split.
  - rewrite unary_evaluate_cases. cbn. rewrite Hnot, Hal, Hc. cbn.
    by rewrite list_lookup_insert_eq.
  - rewrite (applies_apply (heap w)), (applies_apply (heap w)).
    unfold applies. cbn [trace]. lia.
Qed.

Lemma unary_run_keeps c e e' w w' :
  temporary_unary_expr.run c e w = Ok (e', w') ->
  temporary_unary_expr._a e' = temporary_unary_expr._a e
  /\ is_not_forced (temporary_unary_expr._c e')
     = is_not_forced (temporary_unary_expr._c e)
  /\ (temporary_unary_expr.allocated e = true ->
      temporary_unary_expr.allocated e' = true)
  /\ (c <> temporary_unary_expr.MovedFrom ->
      temporary_unary_expr.evaluated e = true ->
      temporary_unary_expr.evaluated e' = true).
Proof.
  intros Hrun. destruct c; cbn [temporary_unary_expr.run] in Hrun.
  - returned. subst. by destruct e.
  - returned. subst. by destruct e as [a [p|c] al ev].
  - returned. subst. by destruct e as [a [p|c] al ev].
  - unfold temporary_unary_expr.allocate_temporary in Hrun.
    destruct (temporary_unary_expr._c e) as [[p|]|c] eqn:Hc; returned; subst;
      cbn; by rewrite ?Hc.
  - apply unary_evaluate_returned in Hrun as (He & Hal & Hc & Ha & _).
    by rewrite Ha, Hc, Hal, He.
  - unfold temporary_unary_expr.direct_evaluate in Hrun.
    destruct (is_not_forced (temporary_unary_expr._c e)) eqn:Hnf;
      returned; subst; [by rewrite Hnf |].
    match goal with
    | H : temporary_unary_expr.evaluate _ _ = _ |- _ =>
        apply unary_evaluate_returned in H as (He & Hal & Hc & Ha & _)
    end.
    by rewrite Ha, Hc, Hal, He, Hnf.
Qed.

Lemma unary_forced_direct_evaluate e (c r : loc) (old : R) w :
  temporary_unary_expr._c e = forced c ->
  temporary_unary_expr.allocated e = true ->
  temporary_unary_expr.evaluated e = false ->
  heap w !! c = Some old ->
  is_Some (heap w !! r) ->
  exists e' w',
    temporary_unary_expr.direct_evaluate e r w = Ok (e', w')
    /\ temporary_unary_expr.evaluated e' = true
    /\ heap w' !! r = Some (Op_apply (temporary_unary_expr._a e) old)
    /\ heap w' !! c = Some (Op_apply (temporary_unary_expr._a e) old)
    /\ length (heap w') = length (heap w)
    /\ trace w' = trace w ++ [EvApply c; EvAssign r c].
Proof.
  intros Hc Hal Hnot Hold [oldr Hr].
  assert (c < length (heap w))%nat as Hclt by eauto using lookup_lt_Some.
  assert (r < length (heap w))%nat as Hrlt by eauto using lookup_lt_Some.
  rewrite (unary_direct_evaluate_forced e c r w Hc Hal).
  unfold bind at 1. rewrite unary_evaluate_cases, Hnot, Hal, Hc. cbn.
  rewrite Hold. cbn. unfold bind, assign, ret. cbn.
  rewrite list_lookup_insert_eq by done.
  destruct (<[c:=_]> (heap w) !! r) eqn:Hr'.
  2:{ apply lookup_ge_None in Hr'. rewrite length_insert in Hr'. lia. }
  cbn. eexists _, _. split; [done |]. cbn.
  split; [done |]. split.
  { apply list_lookup_insert_eq. by rewrite length_insert. }
  split.
  { destruct (decide (r = c)) as [-> | Hne].
    - apply list_lookup_insert_eq. by rewrite length_insert.
    - rewrite list_lookup_insert_ne by done. by apply list_lookup_insert_eq. }
  split; [by rewrite !length_insert | by rewrite <- app_assoc].
Qed.

Lemma unary_not_forced_direct_evaluate e (r : loc) (old : R) w :
  is_not_forced (temporary_unary_expr._c e) = true ->
  heap w !! r = Some old ->
  exists w',
    temporary_unary_expr.direct_evaluate e r w = Ok (e, w')
    /\ heap w' !! r = Some (Op_apply (temporary_unary_expr._a e) old)
    /\ length (heap w') = length (heap w)
    /\ (forall l : loc, l <> r -> heap w' !! l = heap w !! l)
    /\ trace w' = trace w ++ [EvApply r].
Proof.
  intros Hnf Hold.
  rewrite (unary_direct_evaluate_not_forced e r w Hnf), Hold.
  eexists. split; [done |]. cbn.
  assert (r < length (heap w))%nat by eauto using lookup_lt_Some.
  split; [by apply list_lookup_insert_eq |].
  split; [apply length_insert |].
  split; [| done]. intros l Hl. by apply list_lookup_insert_ne.
Qed.

Lemma unary_read_before_evaluate {V : Type} `{!etl_expr V R} e (i : Z) w :
  temporary_unary_expr.evaluated e = false ->
  temporary_expr.read_flat_ e i w = AssertFailed "The result has not been evaluated"
  /\ temporary_expr.at_ e i w = AssertFailed "The result has not been evaluated".
Proof.
  intros Hnot. unfold temporary_expr.read_flat_, temporary_expr.at_.
  unfold temporary_expr.as_derived_result, temporary_expr.unary_derived,
    temporary_unary_expr.result.
  by rewrite Hnot.
Qed.

Lemma unary_read_after_evaluate {V : Type} `{!etl_expr V R}
    e e' (c : loc) (old : R) (i : Z) w w' :
  temporary_unary_expr.evaluated e = false ->
  temporary_unary_expr.evaluate e w = Ok (e', w') ->
  get_result_op (temporary_unary_expr._c e) = Ok c ->
  heap w !! c = Some old ->
  temporary_expr.read_flat_ e' i w'
  = match read_flat (Op_apply (temporary_unary_expr._a e) old) i with
    | Some x => Ok x
    | None => Undefined
    end
  /\ temporary_expr.at_ e' i w'
     = match index (Op_apply (temporary_unary_expr._a e) old) i with
       | Some x => Ok x
       | None => Undefined
       end.
Proof.
  intros Hnot Hev Hc Hold.
  rewrite unary_evaluate_cases, Hnot in Hev.
  destruct (temporary_unary_expr.allocated e) eqn:Hal; [| done].
  rewrite Hc, Hold in Hev. simplify_eq.
  assert (c < length (heap w))%nat by eauto using lookup_lt_Some.
  unfold temporary_expr.read_flat_, temporary_expr.at_, temporary_expr.read_storage.
  unfold temporary_expr.as_derived_result, temporary_expr.unary_derived,
    temporary_unary_expr.result.
  cbn. rewrite Hc. cbn. by rewrite list_lookup_insert_eq.
Qed.

End UnaryMore.

Section BinaryMore.
Context {AExpr BExpr R : Type} {Op : binary_op AExpr BExpr R}.
Implicit Types (e : temporary_binary_expr.t AExpr BExpr) (w : world R).

Lemma binary_allocate_evaluate (a : AExpr) (b : BExpr) w :
  (e <- temporary_binary_expr.allocate_temporary (temporary_binary_expr.make a b) ;;
   temporary_binary_expr.evaluate e)%etl w
  = Ok (temporary_binary_expr.Build a b (shared_ptr (Some (length (heap w)))) true true,
        World (heap w ++ [Op_apply2 a b (Op_allocate2 a b)])
              (trace w ++ [EvAllocate (length (heap w)); EvApply (length (heap w))])).
Proof.
  unfold bind at 1. cbn [temporary_binary_expr.allocate_temporary
    temporary_binary_expr.make temporary_binary_expr._c temporary_binary_expr._a
    temporary_binary_expr._b
    temporary_binary_expr.evaluated].
  unfold bind at 1, reset, ret. cbn [obind fst snd].
  rewrite binary_evaluate_cases. cbn.
  rewrite lookup_fresh. by rewrite insert_fresh, <- app_assoc.
Qed.

Lemma binary_allocate_twice e w :
  (e1 <- temporary_binary_expr.allocate_temporary e ;;
   temporary_binary_expr.allocate_temporary e1)%etl w
  = temporary_binary_expr.allocate_temporary e w.
Proof.
  by destruct e as [a b [[p|]|c] al ev].
Qed.

Lemma binary_evaluate_frame e e' w w' :
  temporary_binary_expr.evaluate e w = Ok (e', w') ->
  length (heap w') = length (heap w)
  /\ forall l : loc,
       get_result_op (temporary_binary_expr._c e) <> Ok l ->
       heap w' !! l = heap w !! l.
Proof.
  rewrite binary_evaluate_cases. intros Hev.
  destruct (temporary_binary_expr.evaluated e); [by simplify_eq |].
  destruct (temporary_binary_expr.allocated e); [| done].
  destruct (get_result_op _) as [c| |]; try done.
  destruct (heap w !! c); simplify_eq. cbn. split.
  - apply length_insert.
  - intros l Hl. apply list_lookup_insert_ne. congruence.
Qed.

Lemma binary_copy_after_evaluate e w :
  temporary_binary_expr.evaluated e = true ->
  temporary_binary_expr.result (temporary_binary_expr.copy e)
  = temporary_binary_expr.result e
  /\ temporary_binary_expr.evaluate (temporary_binary_expr.copy e) w
     = Ok (temporary_binary_expr.copy e, w).
Proof.
  intros Hev. split; [by destruct e |].
  rewrite binary_evaluate_cases. cbn. by rewrite Hev.
Qed.

Lemma binary_copy_before_evaluate e e' (c : loc) w w' :
  temporary_binary_expr.evaluated e = false ->
  temporary_binary_expr.evaluate e w = Ok (e', w') ->
  get_result_op (temporary_binary_expr._c e) = Ok c ->
  temporary_binary_expr.result (temporary_binary_expr.copy e)
  = AssertFailed "The result has not been evaluated"
  /\ exists old new,
       heap w !! c = Some old
       /\ heap w' !! c = Some new
       /\ temporary_binary_expr.evaluate (temporary_binary_expr.copy e) w'
          = Ok (e', World (<[c := Op_apply2 (temporary_binary_expr._a e) (temporary_binary_expr._b e) new]> (heap w'))
                          (trace w' ++ [EvApply c]))
       /\ applies (World (<[c := Op_apply2 (temporary_binary_expr._a e) (temporary_binary_expr._b e) new]> (heap w'))
                         (trace w' ++ [EvApply c]))
          = (applies w + 2)%nat.
Proof.
  intros Hnot Hev Hc. split.
  { unfold temporary_binary_expr.result. cbn. by rewrite Hnot. }
  rewrite binary_evaluate_cases, Hnot in Hev.
  destruct (temporary_binary_expr.allocated e) eqn:Hal; [| done].
  rewrite Hc in Hev. destruct (heap w !! c) as [old|] eqn:Hold; [| done].
  simplify_eq. cbn [heap trace].
  assert (c < length (heap w))%nat as Hlt by eauto using lookup_lt_Some.
  exists old, (Op_apply2 (temporary_binary_expr._a e) (temporary_binary_expr._b e) old).
  split; [done |]. split; [by apply list_lookup_insert_eq |].
  split.
  - rewrite binary_evaluate_cases. cbn. rewrite Hnot, Hal, Hc. cbn.
    by rewrite list_lookup_insert_eq.
  - rewrite (applies_apply (heap w)), (applies_apply (heap w)).
    unfold applies. cbn [trace]. lia.
Qed.

Lemma binary_run_keeps c e e' w w' :
  temporary_binary_expr.run c e w = Ok (e', w') ->
  temporary_binary_expr._a e' = temporary_binary_expr._a e
  /\ is_not_forced (temporary_binary_expr._c e')
     = is_not_forced (temporary_binary_expr._c e)
  /\ (temporary_binary_expr.allocated e = true ->
      temporary_binary_expr.allocated e' = true)
  /\ (c <> temporary_binary_expr.MovedFrom ->
      temporary_binary_expr.evaluated e = true ->
      temporary_binary_expr.evaluated e' = true).
Proof.
  intros Hrun. destruct c; cbn [temporary_binary_expr.run] in Hrun.
  - returned. subst. by destruct e.
  - returned. subst. by destruct e as [a b [p|c] al ev].
  - returned. subst. by destruct e as [a b [p|c] al ev].
  - unfold temporary_binary_expr.allocate_temporary in Hrun.
    destruct (temporary_binary_expr._c e) as [[p|]|c] eqn:Hc; returned; subst;
      cbn; by rewrite ?Hc.
  - apply binary_evaluate_returned in Hrun as (He & Hal & Hc & Ha & _).
    by rewrite Ha, Hc, Hal, He.
  - unfold temporary_binary_expr.direct_evaluate in Hrun.
    destruct (is_not_forced (temporary_binary_expr._c e)) eqn:Hnf;
      returned; subst; [by rewrite Hnf |].
    match goal with
    | H : temporary_binary_expr.evaluate _ _ = _ |- _ =>
        apply binary_evaluate_returned in H as (He & Hal & Hc & Ha & _)
    end.
    by rewrite Ha, Hc, Hal, He, Hnf.
Qed.

Lemma binary_forced_direct_evaluate e (c r : loc) (old : R) w :
  temporary_binary_expr._c e = forced c ->
  temporary_binary_expr.allocated e = true ->
  temporary_binary_expr.evaluated e = false ->
  heap w !! c = Some old ->
  is_Some (heap w !! r) ->
  exists e' w',
    temporary_binary_expr.direct_evaluate e r w = Ok (e', w')
    /\ temporary_binary_expr.evaluated e' = true
    /\ heap w' !! r = Some (Op_apply2 (temporary_binary_expr._a e) (temporary_binary_expr._b e) old)
    /\ heap w' !! c = Some (Op_apply2 (temporary_binary_expr._a e) (temporary_binary_expr._b e) old)
    /\ length (heap w') = length (heap w)
    /\ trace w' = trace w ++ [EvApply c; EvAssign r c].
Proof.
  intros Hc Hal Hnot Hold [oldr Hr].
  assert (c < length (heap w))%nat as Hclt by eauto using lookup_lt_Some.
  assert (r < length (heap w))%nat as Hrlt by eauto using lookup_lt_Some.
  rewrite (binary_direct_evaluate_forced e c r w Hc Hal).
  unfold bind at 1. rewrite binary_evaluate_cases, Hnot, Hal, Hc. cbn.
  rewrite Hold. cbn. unfold bind, assign, ret. cbn.
  rewrite list_lookup_insert_eq by done.
  destruct (<[c:=_]> (heap w) !! r) eqn:Hr'.
  2:{ apply lookup_ge_None in Hr'. rewrite length_insert in Hr'. lia. }
  cbn. eexists _, _. split; [done |]. cbn.
  split; [done |]. split.
  { apply list_lookup_insert_eq. by rewrite length_insert. }
  split.
  { destruct (decide (r = c)) as [-> | Hne].
    - apply list_lookup_insert_eq. by rewrite length_insert.
    - rewrite list_lookup_insert_ne by done. by apply list_lookup_insert_eq. }
  split; [by rewrite !length_insert | by rewrite <- app_assoc].
Qed.

Lemma binary_not_forced_direct_evaluate e (r : loc) (old : R) w :
  is_not_forced (temporary_binary_expr._c e) = true ->
  heap w !! r = Some old ->
  exists w',
    temporary_binary_expr.direct_evaluate e r w = Ok (e, w')
    /\ heap w' !! r = Some (Op_apply2 (temporary_binary_expr._a e) (temporary_binary_expr._b e) old)
    /\ length (heap w') = length (heap w)
    /\ (forall l : loc, l <> r -> heap w' !! l = heap w !! l)
    /\ trace w' = trace w ++ [EvApply r].
Proof.
  intros Hnf Hold.
  rewrite (binary_direct_evaluate_not_forced e r w Hnf), Hold.
  eexists. split; [done |]. cbn.
  assert (r < length (heap w))%nat by eauto using lookup_lt_Some.
  split; [by apply list_lookup_insert_eq |].
  split; [apply length_insert |].
  split; [| done]. intros l Hl. by apply list_lookup_insert_ne.
Qed.

Lemma binary_read_before_evaluate {V : Type} `{!etl_expr V R} e (i : Z) w :
  temporary_binary_expr.evaluated e = false ->
  temporary_expr.read_flat_ e i w = AssertFailed "The result has not been evaluated"
  /\ temporary_expr.at_ e i w = AssertFailed "The result has not been evaluated".
Proof.
  intros Hnot. unfold temporary_expr.read_flat_, temporary_expr.at_.
  unfold temporary_expr.as_derived_result, temporary_expr.binary_derived,
    temporary_binary_expr.result.
  by rewrite Hnot.
Qed.

Lemma binary_read_after_evaluate {V : Type} `{!etl_expr V R}
    e e' (c : loc) (old : R) (i : Z) w w' :
  temporary_binary_expr.evaluated e = false ->
  temporary_binary_expr.evaluate e w = Ok (e', w') ->
  get_result_op (temporary_binary_expr._c e) = Ok c ->
  heap w !! c = Some old ->
  temporary_expr.read_flat_ e' i w'
  = match read_flat (Op_apply2 (temporary_binary_expr._a e) (temporary_binary_expr._b e) old) i with
    | Some x => Ok x
    | None => Undefined
    end
  /\ temporary_expr.at_ e' i w'
     = match index (Op_apply2 (temporary_binary_expr._a e) (temporary_binary_expr._b e) old) i with
       | Some x => Ok x
       | None => Undefined
       end.
Proof.
  intros Hnot Hev Hc Hold.
  rewrite binary_evaluate_cases, Hnot in Hev.
  destruct (temporary_binary_expr.allocated e) eqn:Hal; [| done].
  rewrite Hc, Hold in Hev. simplify_eq.
  assert (c < length (heap w))%nat by eauto using lookup_lt_Some.
  unfold temporary_expr.read_flat_, temporary_expr.at_, temporary_expr.read_storage.
  unfold temporary_expr.as_derived_result, temporary_expr.binary_derived,
    temporary_binary_expr.result.
  cbn. rewrite Hc. cbn. by rewrite list_lookup_insert_eq.
Qed.

End BinaryMore.

(** *** From construction to the result *)

(** A freshly constructed expression that is not forced, allocated and
    then evaluated: both calls return, one storage is allocated behind the
    others and the operator is applied once, into it; the expression is
    allocated and evaluated and its result is what the operator made of
    the storage [Op::allocate] returned. *)
Theorem allocate_then_evaluate {AExpr BExpr R : Type}
    {Op1 : unary_op AExpr R} {Op2 : binary_op AExpr BExpr R}
    (a : AExpr) (b : BExpr) (w : world R) :
  let c := length (heap w) in
  let u := temporary_unary_expr.Build a (shared_ptr (Some c)) true true in
  let wu := World (heap w ++ [Op_apply a (Op_allocate a)])
                  (trace w ++ [EvAllocate c; EvApply c]) in
  let e := temporary_binary_expr.Build a b (shared_ptr (Some c)) true true in
  let we := World (heap w ++ [Op_apply2 a b (Op_allocate2 a b)])
                  (trace w ++ [EvAllocate c; EvApply c]) in
  ((e0 <- temporary_unary_expr.allocate_temporary (temporary_unary_expr.make a) ;;
    temporary_unary_expr.evaluate e0)%etl w = Ok (u, wu)
   /\ temporary_unary_expr.result_value u wu = Ok (Op_apply a (Op_allocate a)))
  /\ ((e0 <- temporary_binary_expr.allocate_temporary
               (temporary_binary_expr.make a b) ;;
       temporary_binary_expr.evaluate e0)%etl w = Ok (e, we)
      /\ temporary_binary_expr.result_value e we
         = Ok (Op_apply2 a b (Op_allocate2 a b))).
Proof.
  cbn zeta. split; split.
  - apply unary_allocate_evaluate.
  - unfold temporary_unary_expr.result_value. cbn. by rewrite lookup_fresh.
  - apply binary_allocate_evaluate.
  - unfold temporary_binary_expr.result_value. cbn. by rewrite lookup_fresh.
Qed.

(** [allocate_temporary()] called twice ends as [allocate_temporary()]
    called once: the second call allocates nothing. *)
Theorem allocate_temporary_idempotent {AExpr BExpr R : Type}
    {Op1 : unary_op AExpr R} {Op2 : binary_op AExpr BExpr R}
    (u : temporary_unary_expr.t AExpr) (b : temporary_binary_expr.t AExpr BExpr)
    (w : world R) :
  (u' <- temporary_unary_expr.allocate_temporary u ;;
   temporary_unary_expr.allocate_temporary u')%etl w
  = temporary_unary_expr.allocate_temporary u w
  /\ (b' <- temporary_binary_expr.allocate_temporary b ;;
      temporary_binary_expr.allocate_temporary b')%etl w
     = temporary_binary_expr.allocate_temporary b w.
Proof. split; [apply unary_allocate_twice | apply binary_allocate_twice]. Qed.

(** [evaluate()] allocates and frees nothing and writes to no storage but
    the result of the expression. *)
Theorem evaluate_frame {AExpr BExpr R : Type}
    {Op1 : unary_op AExpr R} {Op2 : binary_op AExpr BExpr R}
    (u u' : temporary_unary_expr.t AExpr)
    (b b' : temporary_binary_expr.t AExpr BExpr) (w w' : world R) :
  (temporary_unary_expr.evaluate u w = Ok (u', w') ->
   length (heap w') = length (heap w)
   /\ forall l : loc,
        get_result_op (temporary_unary_expr._c u) <> Ok l ->
        heap w' !! l = heap w !! l)
  /\ (temporary_binary_expr.evaluate b w = Ok (b', w') ->
      length (heap w') = length (heap w)
      /\ forall l : loc,
           get_result_op (temporary_binary_expr._c b) <> Ok l ->
           heap w' !! l = heap w !! l).
Proof. split; [apply unary_evaluate_frame | apply binary_evaluate_frame]. Qed.

Lemma evaluate_frame_witness :
  let w := World [[0; 0; 0]; [9; 9; 9]] [] in
  let w' := World [[-1; -2; -3]; [9; 9; 9]] [EvApply 0%nat] in
  let w2 := World [[11; 22; 33]; [9; 9; 9]] [EvApply 0%nat] in
  let u := temporary_unary_expr.make_forced [1; 2; 3] 0%nat in
  let b := temporary_binary_expr.make_forced [1; 2; 3] [10; 20; 30] 0%nat in
  (temporary_unary_expr.evaluate (Op := samples.negate) u w
   = Ok (temporary_unary_expr.Build [1; 2; 3] (forced 0%nat) true true, w')
   /\ temporary_binary_expr.evaluate (Op := samples.add) b w
      = Ok (temporary_binary_expr.Build [1; 2; 3] [10; 20; 30] (forced 0%nat) true true,
            w2))
  /\ (length (heap w') = length (heap w) /\ heap w' !! 1%nat = heap w !! 1%nat)
  /\ (length (heap w2) = length (heap w) /\ heap w2 !! 1%nat = heap w !! 1%nat).
Proof.
  intros w w' w2 u b.
  assert (temporary_unary_expr.evaluate (Op := samples.negate) u w
          = Ok (temporary_unary_expr.Build [1; 2; 3] (forced 0%nat) true true, w'))
    as Hu by reflexivity.
  assert (temporary_binary_expr.evaluate (Op := samples.add) b w
          = Ok (temporary_binary_expr.Build [1; 2; 3] [10; 20; 30]
                  (forced 0%nat) true true, w2))
    as Hb by reflexivity.
  destruct (evaluate_frame (Op1 := samples.negate) (Op2 := samples.add)
              u (temporary_unary_expr.Build [1; 2; 3] (forced 0%nat) true true)
              b (temporary_binary_expr.make [] []) w w') as [Hfu _].
  destruct (evaluate_frame (Op1 := samples.negate) (Op2 := samples.add)
              u (temporary_unary_expr.make [])
              b (temporary_binary_expr.Build [1; 2; 3] [10; 20; 30]
                   (forced 0%nat) true true) w w2) as [_ Hfb].
  destruct (Hfu Hu) as [Hlu Hou]. destruct (Hfb Hb) as [Hlb Hob].
  split; [exact (conj Hu Hb) |].
  split.
  - exact (conj Hlu (Hou 1%nat ltac:(discriminate))).
  - exact (conj Hlb (Hob 1%nat ltac:(discriminate))).
Defined.

(** Copies share the result storage, not the [evaluated] flag.  A copy of
    an evaluated expression has the same [result()] and its [evaluate()]
    does nothing.  A copy taken before the expression was evaluated still
    fails [result()] once the expression is evaluated, and its own
    [evaluate()] applies the operator a second time, into the storage
    they share. *)
Theorem copy_shares_storage_not_flag {AExpr BExpr R : Type}
    {Op1 : unary_op AExpr R} {Op2 : binary_op AExpr BExpr R}
    (u u' : temporary_unary_expr.t AExpr)
    (b b' : temporary_binary_expr.t AExpr BExpr) (c : loc) (w w' : world R) :
  ((temporary_unary_expr.evaluated u = true ->
    temporary_unary_expr.result (temporary_unary_expr.copy u)
    = temporary_unary_expr.result u
    /\ temporary_unary_expr.evaluate (temporary_unary_expr.copy u) w
       = Ok (temporary_unary_expr.copy u, w))
   /\ (temporary_unary_expr.evaluated u = false ->
       temporary_unary_expr.evaluate u w = Ok (u', w') ->
       get_result_op (temporary_unary_expr._c u) = Ok c ->
       temporary_unary_expr.result (temporary_unary_expr.copy u)
       = AssertFailed "The result has not been evaluated"
       /\ exists old new,
            heap w !! c = Some old
            /\ heap w' !! c = Some new
            /\ temporary_unary_expr.evaluate (temporary_unary_expr.copy u) w'
               = Ok (u', World (<[c := Op_apply (temporary_unary_expr._a u) new]>
                                  (heap w'))
                               (trace w' ++ [EvApply c]))
            /\ applies (World (<[c := Op_apply (temporary_unary_expr._a u) new]>
                                 (heap w'))
                              (trace w' ++ [EvApply c]))
               = (applies w + 2)%nat))
  /\ ((temporary_binary_expr.evaluated b = true ->
       temporary_binary_expr.result (temporary_binary_expr.copy b)
       = temporary_binary_expr.result b
       /\ temporary_binary_expr.evaluate (temporary_binary_expr.copy b) w
          = Ok (temporary_binary_expr.copy b, w))
      /\ (temporary_binary_expr.evaluated b = false ->
          temporary_binary_expr.evaluate b w = Ok (b', w') ->
          get_result_op (temporary_binary_expr._c b) = Ok c ->
          temporary_binary_expr.result (temporary_binary_expr.copy b)
          = AssertFailed "The result has not been evaluated"
          /\ exists old new,
               heap w !! c = Some old
               /\ heap w' !! c = Some new
               /\ temporary_binary_expr.evaluate (temporary_binary_expr.copy b) w'
                  = Ok (b', World (<[c := Op_apply2 (temporary_binary_expr._a b)
                                            (temporary_binary_expr._b b) new]>
                                     (heap w'))
                                  (trace w' ++ [EvApply c]))
               /\ applies (World (<[c := Op_apply2 (temporary_binary_expr._a b)
                                          (temporary_binary_expr._b b) new]>
                                    (heap w'))
                                 (trace w' ++ [EvApply c]))
                  = (applies w + 2)%nat)).
Proof.
  split; split.
  - apply unary_copy_after_evaluate.
  - apply unary_copy_before_evaluate.
  - apply binary_copy_after_evaluate.
  - apply binary_copy_before_evaluate.
Qed.

Lemma copy_shares_storage_not_flag_witness :
  let w := World [[0; 0; 0]] [] in
  let u := temporary_unary_expr.Build [1; 2; 3] (shared_ptr (Some 0%nat)) true false in
  let u' := temporary_unary_expr.Build [1; 2; 3] (shared_ptr (Some 0%nat)) true true in
  let wu := World [[-1; -2; -3]] [EvApply 0%nat] in
  let b := temporary_binary_expr.Build [1; 2; 3] [10; 20; 30]
             (shared_ptr (Some 0%nat)) true false in
  let b' := temporary_binary_expr.Build [1; 2; 3] [10; 20; 30]
              (shared_ptr (Some 0%nat)) true true in
  let wb := World [[11; 22; 33]] [EvApply 0%nat] in
  (temporary_unary_expr.evaluate (Op := samples.negate) u w = Ok (u', wu)
   /\ temporary_binary_expr.evaluate (Op := samples.add) b w = Ok (b', wb))
  /\ (temporary_unary_expr.result (temporary_unary_expr.copy u)
      = AssertFailed "The result has not been evaluated"
      /\ temporary_unary_expr.evaluate (Op := samples.negate)
           (temporary_unary_expr.copy u') wu
         = Ok (temporary_unary_expr.copy u', wu))
  /\ (temporary_binary_expr.result (temporary_binary_expr.copy b)
      = AssertFailed "The result has not been evaluated"
      /\ temporary_binary_expr.evaluate (Op := samples.add)
           (temporary_binary_expr.copy b') wb
         = Ok (temporary_binary_expr.copy b', wb)).
Proof.
  intros w u u' wu b b' wb.
  assert (temporary_unary_expr.evaluate (Op := samples.negate) u w = Ok (u', wu))
    as Hu by reflexivity.
  assert (temporary_binary_expr.evaluate (Op := samples.add) b w = Ok (b', wb))
    as Hb by reflexivity.
  destruct (copy_shares_storage_not_flag (Op1 := samples.negate)
              (Op2 := samples.add) u u' b b' 0%nat w wu) as [[_ Hu1] _].
  destruct (copy_shares_storage_not_flag (Op1 := samples.negate)
              (Op2 := samples.add) u u' b b' 0%nat w wb) as [_ [_ Hb1]].
  destruct (copy_shares_storage_not_flag (Op1 := samples.negate)
              (Op2 := samples.add) u' u' b' b' 0%nat wu wu) as [[Hu2 _] _].
  destruct (copy_shares_storage_not_flag (Op1 := samples.negate)
              (Op2 := samples.add) u' u' b' b' 0%nat wb wb) as [_ [Hb2 _]].
  split; [exact (conj Hu Hb) |].
  split.
  - exact (conj (proj1 (Hu1 eq_refl Hu eq_refl)) (proj2 (Hu2 eq_refl))).
  - exact (conj (proj1 (Hb1 eq_refl Hb eq_refl)) (proj2 (Hb2 eq_refl))).
Defined.

(** No call changes the operands of an expression or whether it is
    forced; no call clears [allocated]; and only being moved from clears
    [evaluated]. *)
Theorem calls_keep_operands_and_flags {AExpr BExpr R : Type}
    {Op1 : unary_op AExpr R} {Op2 : binary_op AExpr BExpr R}
    (cu : temporary_unary_expr.call) (u u' : temporary_unary_expr.t AExpr)
    (cb : temporary_binary_expr.call)
    (b b' : temporary_binary_expr.t AExpr BExpr) (w w' : world R) :
  (temporary_unary_expr.run cu u w = Ok (u', w') ->
   temporary_unary_expr._a u' = temporary_unary_expr._a u
   /\ is_not_forced (temporary_unary_expr._c u')
      = is_not_forced (temporary_unary_expr._c u)
   /\ (temporary_unary_expr.allocated u = true ->
       temporary_unary_expr.allocated u' = true)
   /\ (cu <> temporary_unary_expr.MovedFrom ->
       temporary_unary_expr.evaluated u = true ->
       temporary_unary_expr.evaluated u' = true))
  /\ (temporary_binary_expr.run cb b w = Ok (b', w') ->
      (temporary_binary_expr._a b' = temporary_binary_expr._a b
       /\ temporary_binary_expr._b b' = temporary_binary_expr._b b)
      /\ is_not_forced (temporary_binary_expr._c b')
         = is_not_forced (temporary_binary_expr._c b)
      /\ (temporary_binary_expr.allocated b = true ->
          temporary_binary_expr.allocated b' = true)
      /\ (cb <> temporary_binary_expr.MovedFrom ->
          temporary_binary_expr.evaluated b = true ->
          temporary_binary_expr.evaluated b' = true)).
Proof.
  split; intros Hrun.
  - by apply unary_run_keeps in Hrun.
  - pose proof (binary_run_keeps _ _ _ _ _ Hrun) as (Ha & Hf & Hal & Hev).
    repeat split; try done.
    destruct cb; cbn [temporary_binary_expr.run] in Hrun.
    + returned. subst. by destruct b.
    + returned. subst. by destruct b.
    + returned. subst. by destruct b.
    + unfold temporary_binary_expr.allocate_temporary in Hrun.
      destruct (temporary_binary_expr._c b) as [[p|]|c]; returned; by subst.
    + rewrite binary_evaluate_cases in Hrun.
      repeat case_match; by simplify_eq.
    + unfold temporary_binary_expr.direct_evaluate in Hrun.
      destruct (is_not_forced _); returned; subst; [done |].
      match goal with
      | H : temporary_binary_expr.evaluate _ _ = _ |- _ =>
          rewrite binary_evaluate_cases in H; repeat case_match; by simplify_eq
      end.
Qed.

Lemma calls_keep_operands_and_flags_witness :
  let w := World [[0; 0; 0]] [] in
  let u := temporary_unary_expr.make_forced [1; 2; 3] 0%nat in
  let u' := temporary_unary_expr.Build [1; 2; 3] (forced 0%nat) true true in
  let b := temporary_binary_expr.make [1; 2; 3] [10; 20; 30] in
  let b' := temporary_binary_expr.Build [1; 2; 3] [10; 20; 30]
              (shared_ptr (Some 1%nat)) true false in
  (temporary_unary_expr.run (Op := samples.negate) temporary_unary_expr.Evaluate u w
   = Ok (u', World [[-1; -2; -3]] [EvApply 0%nat])
   /\ temporary_binary_expr.run (Op := samples.add)
        temporary_binary_expr.AllocateTemporary b w
      = Ok (b', World [[0; 0; 0]; [0; 0; 0]] [EvAllocate 1%nat]))
  /\ temporary_unary_expr._a u' = temporary_unary_expr._a u
  /\ temporary_binary_expr._b b' = temporary_binary_expr._b b.
Proof.
  intros w u u' b b'.
  assert (temporary_unary_expr.run (Op := samples.negate)
            temporary_unary_expr.Evaluate u w
          = Ok (u', World [[-1; -2; -3]] [EvApply 0%nat])) as Hu by reflexivity.
  assert (temporary_binary_expr.run (Op := samples.add)
            temporary_binary_expr.AllocateTemporary b w
          = Ok (b', World [[0; 0; 0]; [0; 0; 0]] [EvAllocate 1%nat]))
    as Hb by reflexivity.
  destruct (calls_keep_operands_and_flags (Op1 := samples.negate)
              (Op2 := samples.add) temporary_unary_expr.Evaluate u u'
              temporary_binary_expr.AllocateTemporary b b' w
              (World [[-1; -2; -3]] [EvApply 0%nat])) as [Hku _].
  destruct (calls_keep_operands_and_flags (Op1 := samples.negate)
              (Op2 := samples.add) temporary_unary_expr.Evaluate u u'
              temporary_binary_expr.AllocateTemporary b b' w
              (World [[0; 0; 0]; [0; 0; 0]] [EvAllocate 1%nat])) as [_ Hkb].
  split; [exact (conj Hu Hb) |].
  split.
  - exact (proj1 (Hku Hu)).
  - exact (proj2 (proj1 (Hkb Hb))).
Defined.

(** *** What [direct_evaluate] leaves in the storages *)

(** [direct_evaluate(r)] on a forced, not yet evaluated expression whose
    destination [c] and whose target [r] exist: the call returns, the
    expression is evaluated, both [c] and [r] hold what the operator made
    of the old contents of [c], and no storage was allocated. *)
Theorem forced_direct_evaluate_result {AExpr BExpr R : Type}
    {Op1 : unary_op AExpr R} {Op2 : binary_op AExpr BExpr R}
    (u : temporary_unary_expr.t AExpr) (b : temporary_binary_expr.t AExpr BExpr)
    (c r : loc) (old : R) (w : world R) :
  heap w !! c = Some old ->
  is_Some (heap w !! r) ->
  (temporary_unary_expr._c u = forced c ->
   temporary_unary_expr.allocated u = true ->
   temporary_unary_expr.evaluated u = false ->
   exists u' w',
     temporary_unary_expr.direct_evaluate u r w = Ok (u', w')
     /\ temporary_unary_expr.evaluated u' = true
     /\ heap w' !! r = Some (Op_apply (temporary_unary_expr._a u) old)
     /\ heap w' !! c = Some (Op_apply (temporary_unary_expr._a u) old)
     /\ length (heap w') = length (heap w)
     /\ trace w' = trace w ++ [EvApply c; EvAssign r c])
  /\ (temporary_binary_expr._c b = forced c ->
      temporary_binary_expr.allocated b = true ->
      temporary_binary_expr.evaluated b = false ->
      exists b' w',
        temporary_binary_expr.direct_evaluate b r w = Ok (b', w')
        /\ temporary_binary_expr.evaluated b' = true
        /\ heap w' !! r = Some (Op_apply2 (temporary_binary_expr._a b)
                                  (temporary_binary_expr._b b) old)
        /\ heap w' !! c = Some (Op_apply2 (temporary_binary_expr._a b)
                                  (temporary_binary_expr._b b) old)
        /\ length (heap w') = length (heap w)
        /\ trace w' = trace w ++ [EvApply c; EvAssign r c]).
Proof.
  intros Hold Hr. split; intros Hc Hal Hnot.
  - by apply unary_forced_direct_evaluate.
  - by apply binary_forced_direct_evaluate.
Qed.

Lemma forced_direct_evaluate_result_witness :
  let w := World [[0; 0; 0]; [9; 9; 9]] [] in
  let u := temporary_unary_expr.make_forced [1; 2; 3] 0%nat in
  let b := temporary_binary_expr.make_forced [1; 2; 3] [10; 20; 30] 0%nat in
  (heap w !! 0%nat = Some [0; 0; 0] /\ is_Some (heap w !! 1%nat))
  /\ (exists u' w',
        temporary_unary_expr.direct_evaluate (Op := samples.negate) u 1%nat w
        = Ok (u', w')
        /\ temporary_unary_expr.evaluated u' = true
        /\ heap w' !! 1%nat = Some [-1; -2; -3]
        /\ heap w' !! 0%nat = Some [-1; -2; -3]
        /\ length (heap w') = length (heap w)
        /\ trace w' = trace w ++ [EvApply 0%nat; EvAssign 1%nat 0%nat])
  /\ (exists b' w',
        temporary_binary_expr.direct_evaluate (Op := samples.add) b 1%nat w
        = Ok (b', w')
        /\ temporary_binary_expr.evaluated b' = true
        /\ heap w' !! 1%nat = Some [11; 22; 33]
        /\ heap w' !! 0%nat = Some [11; 22; 33]
        /\ length (heap w') = length (heap w)
        /\ trace w' = trace w ++ [EvApply 0%nat; EvAssign 1%nat 0%nat]).
Proof.
  intros w u b.
  assert (heap w !! 0%nat = Some [0; 0; 0]) as Hold by reflexivity.
  assert (is_Some (heap w !! 1%nat)) as Hr by (eexists; reflexivity).
  destruct (forced_direct_evaluate_result (Op1 := samples.negate)
              (Op2 := samples.add) u b 0%nat 1%nat [0; 0; 0] w Hold Hr)
    as [Hu Hb].
  split; [exact (conj Hold Hr) |].
  split.
  - exact (Hu eq_refl eq_refl eq_refl).
  - exact (Hb eq_refl eq_refl eq_refl).
Defined.

(** [direct_evaluate(r)] on an expression that is not forced, whatever its
    flags and whether or not it has a result storage: the call returns
    when [r] exists, [r] holds what the operator made of its old contents,
    every other storage and the expression are as before. *)
Theorem not_forced_direct_evaluate_result {AExpr BExpr R : Type}
    {Op1 : unary_op AExpr R} {Op2 : binary_op AExpr BExpr R}
    (u : temporary_unary_expr.t AExpr) (b : temporary_binary_expr.t AExpr BExpr)
    (r : loc) (old : R) (w : world R) :
  heap w !! r = Some old ->
  (is_not_forced (temporary_unary_expr._c u) = true ->
   exists w',
     temporary_unary_expr.direct_evaluate u r w = Ok (u, w')
     /\ heap w' !! r = Some (Op_apply (temporary_unary_expr._a u) old)
     /\ length (heap w') = length (heap w)
     /\ (forall l : loc, l <> r -> heap w' !! l = heap w !! l)
     /\ trace w' = trace w ++ [EvApply r])
  /\ (is_not_forced (temporary_binary_expr._c b) = true ->
      exists w',
        temporary_binary_expr.direct_evaluate b r w = Ok (b, w')
        /\ heap w' !! r = Some (Op_apply2 (temporary_binary_expr._a b)
                                  (temporary_binary_expr._b b) old)
        /\ length (heap w') = length (heap w)
        /\ (forall l : loc, l <> r -> heap w' !! l = heap w !! l)
        /\ trace w' = trace w ++ [EvApply r]).
Proof.
  intros Hold. split; intros Hnf.
  - by apply unary_not_forced_direct_evaluate.
  - by apply binary_not_forced_direct_evaluate.
Qed.

Lemma not_forced_direct_evaluate_result_witness :
  let w := World [[0; 0; 0]; [9; 9; 9]] [] in
  let u := temporary_unary_expr.make [1; 2; 3] in
  let b := temporary_binary_expr.make [1; 2; 3] [10; 20; 30] in
  heap w !! 1%nat = Some [9; 9; 9]
  /\ (exists w',
        temporary_unary_expr.direct_evaluate (Op := samples.negate) u 1%nat w
        = Ok (u, w')
        /\ heap w' !! 1%nat = Some [-1; -2; -3]
        /\ length (heap w') = length (heap w)
        /\ (forall l : loc, l <> 1%nat -> heap w' !! l = heap w !! l)
        /\ trace w' = trace w ++ [EvApply 1%nat])
  /\ (exists w',
        temporary_binary_expr.direct_evaluate (Op := samples.add) b 1%nat w
        = Ok (b, w')
        /\ heap w' !! 1%nat = Some [11; 22; 33]
        /\ length (heap w') = length (heap w)
        /\ (forall l : loc, l <> 1%nat -> heap w' !! l = heap w !! l)
        /\ trace w' = trace w ++ [EvApply 1%nat]).
Proof.
  intros w u b.
  assert (heap w !! 1%nat = Some [9; 9; 9]) as Hold by reflexivity.
  destruct (not_forced_direct_evaluate_result (Op1 := samples.negate)
              (Op2 := samples.add) u b 1%nat [9; 9; 9] w Hold) as [Hu Hb].
  split; [exact Hold |].
  split; [exact (Hu eq_refl) | exact (Hb eq_refl)].
Defined.

(** *** Reading a temporary expression *)

(** [operator[]] and [read_flat] of a temporary expression fail the
    assertion of [result()] while the expression is not evaluated; once
    [evaluate()] has returned they read what the operator wrote. *)
Theorem read_after_evaluate {V AExpr BExpr R : Type} `{!etl_expr V R}
    {Op1 : unary_op AExpr R} {Op2 : binary_op AExpr BExpr R}
    (u u' : temporary_unary_expr.t AExpr)
    (b b' : temporary_binary_expr.t AExpr BExpr)
    (c : loc) (old : R) (i : Z) (w w' : world R) :
  (temporary_unary_expr.evaluated u = false ->
   (temporary_expr.read_flat_ u i w
    = AssertFailed "The result has not been evaluated"
    /\ temporary_expr.at_ u i w = AssertFailed "The result has not been evaluated")
   /\ (temporary_unary_expr.evaluate u w = Ok (u', w') ->
       get_result_op (temporary_unary_expr._c u) = Ok c ->
       heap w !! c = Some old ->
       temporary_expr.read_flat_ u' i w'
       = match read_flat (Op_apply (temporary_unary_expr._a u) old) i with
         | Some x => Ok x
         | None => Undefined
         end
       /\ temporary_expr.at_ u' i w'
          = match index (Op_apply (temporary_unary_expr._a u) old) i with
            | Some x => Ok x
            | None => Undefined
            end))
  /\ (temporary_binary_expr.evaluated b = false ->
      (temporary_expr.read_flat_ b i w
       = AssertFailed "The result has not been evaluated"
       /\ temporary_expr.at_ b i w
          = AssertFailed "The result has not been evaluated")
      /\ (temporary_binary_expr.evaluate b w = Ok (b', w') ->
          get_result_op (temporary_binary_expr._c b) = Ok c ->
          heap w !! c = Some old ->
          temporary_expr.read_flat_ b' i w'
          = match read_flat (Op_apply2 (temporary_binary_expr._a b)
                               (temporary_binary_expr._b b) old) i with
            | Some x => Ok x
            | None => Undefined
            end
          /\ temporary_expr.at_ b' i w'
             = match index (Op_apply2 (temporary_binary_expr._a b)
                              (temporary_binary_expr._b b) old) i with
               | Some x => Ok x
               | None => Undefined
               end)).
Proof.
  split; intros Hnot; (split; [| intros Hev Hc Hold]).
  - by apply unary_read_before_evaluate.
  - by apply (unary_read_after_evaluate u u' c old i w w').
  - by apply binary_read_before_evaluate.
  - by apply (binary_read_after_evaluate b b' c old i w w').
Qed.

Lemma read_after_evaluate_witness :
  let w := World [[0; 0; 0]] [] in
  let u := temporary_unary_expr.make_forced [1; 2; 3] 0%nat in
  let u' := temporary_unary_expr.Build [1; 2; 3] (forced 0%nat) true true in
  let wu := World [[-1; -2; -3]] [EvApply 0%nat] in
  let b := temporary_binary_expr.make_forced [1; 2; 3] [10; 20; 30] 0%nat in
  let b' := temporary_binary_expr.Build [1; 2; 3] [10; 20; 30]
              (forced 0%nat) true true in
  let wb := World [[11; 22; 33]] [EvApply 0%nat] in
  (temporary_expr.read_flat_ u 1 w = AssertFailed "The result has not been evaluated"
   /\ temporary_expr.read_flat_ u' 1 wu = Ok (-2))
  /\ (temporary_expr.read_flat_ b 1 w = AssertFailed "The result has not been evaluated"
      /\ temporary_expr.read_flat_ b' 1 wb = Ok 22).
Proof.
  intros w u u' wu b b' wb.
  assert (temporary_unary_expr.evaluate (Op := samples.negate) u w = Ok (u', wu))
    as Hu by reflexivity.
  assert (temporary_binary_expr.evaluate (Op := samples.add) b w = Ok (b', wb))
    as Hb by reflexivity.
  destruct (read_after_evaluate (Op1 := samples.negate) (Op2 := samples.add)
              u u' b b' 0%nat [0; 0; 0] 1 w wu) as [Hru _].
  destruct (read_after_evaluate (Op1 := samples.negate) (Op2 := samples.add)
              u u' b b' 0%nat [0; 0; 0] 1 w wb) as [_ Hrb].
  destruct (Hru eq_refl) as [[Hu0 _] Hu1]. destruct (Hrb eq_refl) as [[Hb0 _] Hb1].
  split.
  - exact (conj Hu0 (proj1 (Hu1 Hu eq_refl eq_refl))).
  - exact (conj Hb0 (proj1 (Hb1 Hb eq_refl eq_refl))).
Defined.

(** ** More on the traits *)

Section TraitsMore.
Import traits.

Lemma nodes_self (e : expr_t) : e ∈ nodes e.
Proof. destruct e; cbn; apply list_elem_of_here. Qed.

Lemma fast_nodes (e : expr_t) :
  is_fast (resolve e) = true ->
  forall n, n ∈ nodes e -> is_fast (resolve n) = true.
Proof.
  induction e as [tr | A IHA | A IHA B IHB | T IH D | T IH D | T IH D | T IH D];
    cbn [nodes]; intros Hfast n [-> | Hin]%elem_of_cons; try done.
  - by apply elem_of_nil in Hin.
  - by apply IHA.
  - cbn in Hfast. apply andb_true_iff in Hfast as [HA HB].
    apply elem_of_app in Hin as [Hin | Hin]; [by apply IHA | by apply IHB].
  - by apply IH.
  - by apply IH.
Qed.

Lemma static_leaves_fast (e : expr_t) :
  (forall tr, leaf tr ∈ nodes e -> is_fast tr = true) ->
  (forall T D, dyn_rep_r_transformer T D ∉ nodes e) ->
  (forall T D, dyn_rep_l_transformer T D ∉ nodes e) ->
  is_fast (resolve e) = true.
Proof.
  induction e as [tr | A IHA | A IHA B IHB | T IH D | T IH D | T IH D | T IH D];
    cbn [nodes]; intros Hleaf Hr Hl.
  - apply Hleaf, list_elem_of_here.
  - cbn. apply IHA; intros; [apply Hleaf | intros Hin; eapply Hr | intros Hin; eapply Hl];
      apply list_elem_of_further; eassumption.
  - cbn. apply andb_true_iff. split.
    + apply IHA; intros;
        [apply Hleaf | intros Hin; eapply Hr | intros Hin; eapply Hl];
        apply list_elem_of_further, elem_of_app; left; eassumption.
    + apply IHB; intros;
        [apply Hleaf | intros Hin; eapply Hr | intros Hin; eapply Hl];
        apply list_elem_of_further, elem_of_app; right; eassumption.
  - cbn. apply IH; intros; [apply Hleaf | intros Hin; eapply Hr | intros Hin; eapply Hl];
      apply list_elem_of_further; eassumption.
  - cbn. apply IH; intros; [apply Hleaf | intros Hin; eapply Hr | intros Hin; eapply Hl];
      apply list_elem_of_further; eassumption.
  - destruct (Hr T D). apply list_elem_of_here.
  - destruct (Hl T D). apply list_elem_of_here.
Qed.

(** An expression type built from temporary expressions and repeat
    transformers is fast exactly when every leaf in it is fast and no
    node in it is a dynamic repeat transformer: the temporary expressions
    and the static repeat transformers pass on the answer of their
    operands, the dynamic repeat transformers answer no. *)
Theorem fast_iff_leaves_fast (e : expr_t) :
  is_fast (resolve e) = true
  <-> (forall tr, leaf tr ∈ nodes e -> is_fast tr = true)
      /\ (forall T D, dyn_rep_r_transformer T D ∉ nodes e)
      /\ (forall T D, dyn_rep_l_transformer T D ∉ nodes e).
Proof.
  split.
  - intros Hfast. pose proof (fast_nodes e Hfast) as Hnodes.
    split; [| split].
    + intros tr Hin. exact (Hnodes _ Hin).
    + intros T D Hin. by apply Hnodes in Hin.
    + intros T D Hin. by apply Hnodes in Hin.
  - intros (Hleaf & Hr & Hl). by apply static_leaves_fast.
Qed.

Lemma fast_iff_leaves_fast_witness :
  let fast := leaf {| is_etl := true; is_transformer := false; is_view := false;
                      is_magic_view := false; is_fast := true; is_linear := true;
                      is_value := true; is_direct := Some true;
                      is_generator := false; needs_temporary_visitor := false;
                      needs_evaluator_visitor := false;
                      storage_order := RowMajor; vectorizable := fun _ => true |} in
  let slow := leaf (samples.container RowMajor) in
  let e := temporary_binary_expr (rep_l_transformer fast [2]) (temporary_unary_expr fast) in
  is_fast (resolve e) = true
  /\ is_fast (resolve (temporary_unary_expr (dyn_rep_r_transformer fast 1))) = false
  /\ is_fast (resolve (temporary_binary_expr fast slow)) = false.
Proof.
  intros fast slow e.
  assert (forall n, n ∈ nodes e -> n = e \/ n = rep_l_transformer fast [2]
                                  \/ n = temporary_unary_expr fast \/ n = fast)
    as Hnodes.
  { intros n Hin. cbn in Hin. rewrite !elem_of_cons in Hin.
    destruct Hin as [-> | [-> | [-> | [-> | [-> | Hin]]]]]; auto.
    by apply elem_of_nil in Hin. }
  split; [| split].
  - apply (proj2 (fast_iff_leaves_fast e)). split; [| split].
    + intros tr [[=] | [[=] | [[=] | Heq]]]%Hnodes. by injection Heq as ->.
    + by intros T D [[=] | [[=] | [[=] | [=]]]]%Hnodes.
    + by intros T D [[=] | [[=] | [[=] | [=]]]]%Hnodes.
  - destruct (is_fast (resolve (temporary_unary_expr (dyn_rep_r_transformer fast 1))))
      eqn:Hfast; [| done].
    apply (proj1 (fast_iff_leaves_fast _)) in Hfast as (_ & Hr & _).
    destruct (Hr fast 1%nat). cbn. do 2 constructor.
  - destruct (is_fast (resolve (temporary_binary_expr fast slow))) eqn:Hfast; [| done].
    apply (proj1 (fast_iff_leaves_fast _)) in Hfast as (Hleaf & _ & _).
    assert (is_fast (samples.container RowMajor) = true) as Hslow
      by (apply Hleaf; cbn; do 3 constructor).
    discriminate Hslow.
Defined.

(** A stack of repeat transformers keeps the storage order and the two
    visitor needs of the expression inside; it is fast exactly when the
    expression inside is and no transformer of the stack is dynamic; and
    when it is not empty it is a transformer, neither linear nor a
    generator nor vectorizable for any vector mode. *)
Theorem repeat_stack_traits (rs : list stacks.repeat) (T : expr_t) :
  storage_order (resolve (stacks.stack rs T)) = storage_order (resolve T)
  /\ needs_temporary_visitor (resolve (stacks.stack rs T))
     = needs_temporary_visitor (resolve T)
  /\ needs_evaluator_visitor (resolve (stacks.stack rs T))
     = needs_evaluator_visitor (resolve T)
  /\ is_fast (resolve (stacks.stack rs T))
     = is_fast (resolve T) && forallb (fun r => negb (stacks.is_dyn r)) rs
  /\ (rs <> [] ->
      is_transformer (resolve (stacks.stack rs T)) = true
      /\ is_linear (resolve (stacks.stack rs T)) = false
      /\ is_generator (resolve (stacks.stack rs T)) = false
      /\ forall V, vectorizable (resolve (stacks.stack rs T)) V = false).
Proof.
  induction rs as [|r rs (Hso & Htv & Hev & Hfast & _)]; cbn [stacks.stack foldr].
  - repeat split; try done. cbn. by rewrite andb_true_r.
  - fold (stacks.stack rs T).
    destruct r; cbn; rewrite ?Hso, ?Htv, ?Hev, ?Hfast, ?andb_false_r;
      by repeat split.
Qed.

Lemma repeat_stack_traits_witness :
  let rs := [stacks.RepL [2]; stacks.DynRepR 1; stacks.RepR [3; 4]] in
  let T := temporary_unary_expr (leaf (samples.container ColumnMajor)) in
  rs <> []
  /\ storage_order (resolve (stacks.stack rs T)) = ColumnMajor
  /\ needs_temporary_visitor (resolve (stacks.stack rs T)) = true
  /\ is_fast (resolve (stacks.stack rs T)) = false
  /\ forall V, vectorizable (resolve (stacks.stack rs T)) V = false.
Proof.
  intros rs T.
  assert (rs <> []) as Hne by discriminate.
  destruct (repeat_stack_traits rs T) as (Hso & Htv & _ & Hfast & Hrest).
  destruct (Hrest Hne) as (_ & _ & _ & Hvec).
  exact (conj Hne (conj Hso (conj Htv (conj Hfast Hvec)))).
Defined.

End TraitsMore.

(** ** The cuDNN helpers *)

Lemma to_int_small (z : Z) : 0 <= z <= cudnn.INT_MAX -> cudnn.to_int z = z.
Proof.
  unfold cudnn.to_int, cudnn.INT_MAX. intros Hz.
  rewrite Z.mod_small by lia. lia.
Qed.

Lemma to_int_range (z : Z) : - 2 ^ 31 <= cudnn.to_int z <= cudnn.INT_MAX.
Proof.
  unfold cudnn.to_int, cudnn.INT_MAX.
  pose proof (Z.mod_pos_bound (z + 2 ^ 31) (2 ^ 32)). lia.
Qed.

(** An extent of 2^31 reaches the library as -2^31, an extent of 2^32 + 5
    as 5. *)
Example create_tensor_narrows :
  cudnn.create_tensor cudnn.float [2 ^ 31; 2 ^ 32 + 5]
  = Some (cudnn.Descriptor4d cudnn.CUDNN_DATA_FLOAT 1 1 (- 2 ^ 31) 5).
Proof. reflexivity. Qed.

(** [create_tensor] has an overload for two, three and four dimensions
    and no other; the descriptor it sets is the extents of the input, each
    converted to [int], padded with ones in front to four, of type float
    for [float] and double for everything else.  When every extent is an
    [int] (at most [INT_MAX]) the descriptor holds the extents themselves
    and describes as many elements as the input has.  [create_filter] has
    the overloads for two and four dimensions only, and sets what
    [create_tensor] sets there. *)
Theorem create_tensor_descriptor (T : cudnn.value_t) (dims : list Z) :
  (is_Some (cudnn.create_tensor T dims) <-> (2 <= length dims <= 4)%nat)
  /\ (is_Some (cudnn.create_filter T dims) <-> length dims = 2%nat \/ length dims = 4%nat)
  /\ (forall d,
        cudnn.create_tensor T dims = Some d ->
        [cudnn.dim_n d; cudnn.dim_c d; cudnn.dim_h d; cudnn.dim_w d]
        = replicate (4 - length dims) 1 ++ (cudnn.to_int <$> dims)
        /\ cudnn.data_type d = cudnn.data_type_of T
        /\ (Forall (fun x => 0 <= x <= cudnn.INT_MAX) dims ->
            [cudnn.dim_n d; cudnn.dim_c d; cudnn.dim_h d; cudnn.dim_w d]
            = replicate (4 - length dims) 1 ++ dims
            /\ cudnn.dim_n d * cudnn.dim_c d * cudnn.dim_h d * cudnn.dim_w d
               = foldr Z.mul 1 dims))
  /\ (forall d,
        cudnn.create_filter T dims = Some d -> cudnn.create_tensor T dims = Some d).
Proof.
  split; [| split; [| split]].
  - destruct dims as [|d0 [|d1 [|d2 [|d3 [|d4 dims]]]]]; cbn;
      split; try (intros [? ?]; done); try (intros; lia); eauto.
  - destruct dims as [|d0 [|d1 [|d2 [|d3 [|d4 dims]]]]]; cbn;
      split; try (intros [? ?]; done); try (intros [? | ?]; done); eauto.
  - intros d Hd.
    destruct dims as [|d0 [|d1 [|d2 [|d3 [|d4 dims]]]]]; try done;
      injection Hd as <-; cbn [cudnn.dim_n cudnn.dim_c cudnn.dim_h cudnn.dim_w
                               cudnn.data_type length Nat.sub replicate app fmap
                               list_fmap foldr].
    all: split; [done |]; split; [done |].
    all: intros Hfit; decompose_Forall.
    all: rewrite !to_int_small by done.
    all: split; [done | lia].
  - intros d.
    by destruct dims as [|d0 [|d1 [|d2 [|d3 [|d4 dims]]]]].
Qed.

Lemma create_tensor_descriptor_witness :
  Forall (fun x => 0 <= x <= cudnn.INT_MAX) [5; 6; 7]
  /\ cudnn.create_tensor cudnn.double [5; 6; 7]
     = Some (cudnn.Descriptor4d cudnn.CUDNN_DATA_DOUBLE 1 5 6 7)
  /\ cudnn.create_filter cudnn.double [5; 6; 7] = None
  /\ 1 * 5 * 6 * 7 = foldr Z.mul 1 [5; 6; 7].
Proof.
  assert (Forall (fun x => 0 <= x <= cudnn.INT_MAX) [5; 6; 7]) as Hfit
    by (repeat constructor; by vm_compute).
  destruct (create_tensor_descriptor cudnn.double [5; 6; 7])
    as (_ & _ & Hdesc & _).
  destruct (Hdesc _ eq_refl) as (_ & _ & Hexact).
  destruct (Hexact Hfit) as [_ Hprod].
  exact (conj Hfit (conj eq_refl (conj eq_refl Hprod))).
Defined.

(** A [cudnn_wrapper] and the wrapper move-constructed from it release the
    descriptor once between them, in whichever order they are destroyed:
    the wrapper moved from releases nothing. *)
Theorem wrapper_released_once (rhs : cudnn.cudnn_wrapper) (released : list cudnn.handle) :
  let new := fst (cudnn.wrapper_move rhs) in
  let old := snd (cudnn.wrapper_move rhs) in
  cudnn.wrapper_destroy old released = released
  /\ cudnn.wrapper_destroy new (cudnn.wrapper_destroy old released)
     = cudnn.wrapper_destroy rhs released
  /\ cudnn.wrapper_destroy old (cudnn.wrapper_destroy new released)
     = cudnn.wrapper_destroy rhs released.
Proof. by destruct rhs as [[h|]]. Qed.

(** A [cudnn_handle] and the handle move-constructed from it (the move
    constructor is the defaulted one) both release the raw handle when
    destroyed: it is released twice. *)
Theorem handle_released_twice (rhs : cudnn.cudnn_handle) (released : list cudnn.handle) :
  let new := fst (cudnn.handle_move rhs) in
  let old := snd (cudnn.handle_move rhs) in
  cudnn.handle_destroy new (cudnn.handle_destroy old released)
  = released ++ [cudnn.raw rhs; cudnn.raw rhs].
Proof.
  destruct rhs as [h]. exact (eq_sym (app_assoc released [h] [h])).
Qed.

(** ** The configuration flags *)

(** The MKL mode turns the BLAS mode on: whenever [is_mkl_enabled] holds,
    [is_cblas_enabled] holds; the BLAS mode alone does not turn the MKL
    mode on. *)
Theorem mkl_enables_cblas (d : config.defines) :
  (config.is_mkl_enabled d = true -> config.is_cblas_enabled d = true)
  /\ (config.is_cblas_enabled d = true
      <-> config.ETL_MKL_MODE d = true \/ config.ETL_BLAS_MODE d = true)
  /\ (config.ETL_MKL_MODE d = false -> config.is_mkl_enabled d = false).
Proof.
  unfold config.is_mkl_enabled, config.is_cblas_enabled, config.BLAS_MODE_defined.
  split; [| split]; [| apply orb_true_iff | done].
  intros ->. done.
Qed.

(** [ETL_VECTORIZE_FULL] defines both [ETL_VECTORIZE_EXPR] and
    [ETL_VECTORIZE_IMPL]: it sets [vectorize_expr]; and [vectorize_impl],
    which is [true_type] when [ETL_VECTORIZE_IMPL] is not defined, is
    [false_type] with it. *)
Theorem vectorize_full_flags (d : config.defines) :
  (config.ETL_VECTORIZE_FULL d = true ->
   config.vectorize_expr d = true /\ config.vectorize_impl d = false)
  /\ (config.vectorize_impl d = true
      <-> config.ETL_VECTORIZE_FULL d = false /\ config.ETL_VECTORIZE_IMPL d = false)
  /\ (config.vectorize_expr d = true
      <-> config.ETL_VECTORIZE_FULL d = true \/ config.ETL_VECTORIZE_EXPR d = true).
Proof.
  unfold config.vectorize_expr, config.vectorize_impl,
    config.VECTORIZE_EXPR_defined, config.VECTORIZE_IMPL_defined.
  split; [| split].
  - by intros ->.
  - rewrite negb_true_iff. apply orb_false_iff.
  - apply orb_true_iff.
Qed.

Lemma mkl_enables_cblas_witness :
  let d := {| config.ETL_VECTORIZE_FULL := false; config.ETL_VECTORIZE_EXPR := false;
              config.ETL_VECTORIZE_IMPL := false; config.ETL_NO_TEMPORARY := false;
              config.ETL_MKL_MODE := true; config.ETL_BLAS_MODE := false;
              config.ETL_ELEMENT_WISE_MULTIPLICATION := false;
              config.ETL_STRICT_DIV := false; config.ETL_UNROLL_VECT := false;
              config.ETL_UNROLL_NON_VECT := false;
              config.AVX := false; config.SSE3 := false |} in
  config.is_mkl_enabled d = true /\ config.is_cblas_enabled d = true.
Proof.
  intros d. destruct (mkl_enables_cblas d) as (Hmkl & _ & _).
  exact (conj eq_refl (Hmkl eq_refl)).
Defined.

Lemma vectorize_full_flags_witness :
  let d := {| config.ETL_VECTORIZE_FULL := true; config.ETL_VECTORIZE_EXPR := false;
              config.ETL_VECTORIZE_IMPL := false; config.ETL_NO_TEMPORARY := false;
              config.ETL_MKL_MODE := false; config.ETL_BLAS_MODE := false;
              config.ETL_ELEMENT_WISE_MULTIPLICATION := false;
              config.ETL_STRICT_DIV := false; config.ETL_UNROLL_VECT := false;
              config.ETL_UNROLL_NON_VECT := false;
              config.AVX := true; config.SSE3 := true |} in
  config.ETL_VECTORIZE_FULL d = true
  /\ config.vectorize_expr d = true /\ config.vectorize_impl d = false.
Proof.
  intros d. destruct (vectorize_full_flags d) as (Hfull & _ & _).
  exact (conj eq_refl (Hfull eq_refl)).
Defined.
